(** * dais-web3.js: the aggregation engine of [src/lib/lib.ts]

    A shallow embedding of the [ProtocolFileWriter] singleton: its three
    private tables ([#madeDirs], [#addresses], [#abis]), the protocol
    dispatch table, the concurrent fan-out of [#work], the two registry
    renderers and the sequencing of [main].

    JavaScript promises are modelled by explicit state passing.  Every
    asynchronous call of the source is a suspension point; the order in which
    suspended generator invocations are resumed is not fixed by the language,
    so it is a parameter of the model (a schedule), and the statements about
    a run quantify over every schedule.  A call to a collaborator (file
    system, protocol writer) is recorded, and takes effect, in the turn that
    resumes its caller; the synchronous parts of the source (the test of a
    flag, the pushes of a [.then] callback, a rendering loop) are atomic. *)

From Stdlib Require Import String Ascii List Bool Arith Lia.
Import ListNotations.
Local Open Scope list_scope.
Local Open Scope string_scope.

Set Implicit Arguments.

(** ** Host values *)

(** The line feed of the template literals ([\n]). *)
Definition nl : string := String "010"%char EmptyString.

(** A rejection value.  [TypeError] is what the runtime raises when a
    property of [undefined] is read; [Failure] is whatever a collaborator
    (file system, protocol writer) rejects with. *)
Inductive JsError : Type :=
| TypeError (msg : string)
| Failure (payload : string).

(** The three states of a promise. *)
Inductive Promise (A : Type) : Type :=
| Pending
| Resolved (v : A)
| Rejected (e : JsError).
Arguments Pending {A}.
Arguments Resolved {A} v.
Arguments Rejected {A} e.

(** ** The enumerations of [./daisconfig] as [lib.ts] uses them

    [SupportedProtocol] is the key set of the mapped type of [protocols]
    (lines 230-261), [SupportedNetwork] the key set of the object literals of
    lines 53-58. *)
Inductive SupportedProtocol : Type := BANCOR | DYDX | KYBER | ONEINCH | UNISWAP.
Inductive SupportedNetwork : Type := MAINNET | KOVAN | ROPSTEN.

(** [SupportedProtocol | 'ERROR'], the type of the local [protocol] of
    [#work] and of the keys of [#addresses] and [#abis]. *)
Inductive Bucket : Type :=
| Proto (p : SupportedProtocol)
| ERROR.

(** [SupportedNetwork | 'all']. *)
Inductive NetChoice : Type :=
| Net (n : SupportedNetwork)
| all.

Definition SupportedProtocol_eq_dec (a b : SupportedProtocol) : {a = b} + {a <> b}.
Proof. decide equality. Defined.

Definition Bucket_eq_dec (a b : Bucket) : {a = b} + {a <> b}.
Proof. decide equality. apply SupportedProtocol_eq_dec. Defined.

Definition protocol_name (p : SupportedProtocol) : string :=
  match p with
  | BANCOR => "BANCOR"
  | DYDX => "DYDX"
  | KYBER => "KYBER"
  | ONEINCH => "ONEINCH"
  | UNISWAP => "UNISWAP"
  end.

Definition bucket_name (b : Bucket) : string :=
  match b with
  | Proto p => protocol_name p
  | ERROR => "ERROR"
  end.

Definition network_name (n : SupportedNetwork) : string :=
  match n with
  | MAINNET => "MAINNET"
  | KOVAN => "KOVAN"
  | ROPSTEN => "ROPSTEN"
  end.

(** ** JavaScript objects used as tables

    A plain object keeps its string keys in insertion order, and
    [Object.entries] lists them in that order; assigning to a key that exists
    replaces the value in place.  Reading a key that was never assigned
    yields [undefined], here [None]. *)
Module Obj.
Section Table.
Variables K V : Type.
Variable K_eq_dec : forall a b : K, {a = b} + {a <> b}.

Definition t : Type := list (K * V).

Fixpoint get (k : K) (o : t) : option V :=
  match o with
  | [] => None
  | (k', v) :: rest => if K_eq_dec k k' then Some v else get k rest
  end.

Fixpoint set (k : K) (v : V) (o : t) : t :=
  match o with
  | [] => [(k, v)]
  | (k', v') :: rest =>
      if K_eq_dec k k' then (k, v) :: rest else (k', v') :: set k v rest
  end.

Definition keys (o : t) : list K := map fst o.
Definition entries (o : t) : list (K * V) := o.
End Table.
End Obj.

(** ** Records of [./protocols/__imports__] as [lib.ts] reads them *)

Record IABIReturn : Type := { ABI : string }.

Record IAddressReturn : Type := {
  ContractName : string;
  Address : string;
  NET : SupportedNetwork
}.

Record IWriterReturn : Type := {
  ABIs : list IABIReturn;
  Addresses : list IAddressReturn;
  Pack : string
}.

(** What the no-op generators and the ERROR generator return
    (lines 246-259). *)
Definition emptyReturn : IWriterReturn :=
  {| ABIs := []; Addresses := []; Pack := EmptyString |}.

(** An element of the arrays of [#addresses] (lines 126-129: the [NET] field
    is dropped, it has become the key). *)
Record AddressEntry : Type := {
  entryContractName : string;
  entryAddress : string
}.

(** The object literal [{ MAINNET: [], KOVAN: [], ROPSTEN: [] }]: three
    arrays under three fixed keys, listed in this order by
    [Object.entries]. *)
Record Networks : Type := {
  onMAINNET : list AddressEntry;
  onKOVAN : list AddressEntry;
  onROPSTEN : list AddressEntry
}.

Definition noAddresses : Networks :=
  {| onMAINNET := []; onKOVAN := []; onROPSTEN := [] |}.

Definition net_get (n : SupportedNetwork) (ns : Networks) : list AddressEntry :=
  match n with
  | MAINNET => onMAINNET ns
  | KOVAN => onKOVAN ns
  | ROPSTEN => onROPSTEN ns
  end.

Definition net_push (n : SupportedNetwork) (e : AddressEntry) (ns : Networks) : Networks :=
  match n with
  | MAINNET => {| onMAINNET := (onMAINNET ns ++ [e])%list; onKOVAN := onKOVAN ns; onROPSTEN := onROPSTEN ns |}
  | KOVAN => {| onMAINNET := onMAINNET ns; onKOVAN := (onKOVAN ns ++ [e])%list; onROPSTEN := onROPSTEN ns |}
  | ROPSTEN => {| onMAINNET := onMAINNET ns; onKOVAN := onKOVAN ns; onROPSTEN := (onROPSTEN ns ++ [e])%list |}
  end.

Definition net_entries (ns : Networks) : list (SupportedNetwork * list AddressEntry) :=
  [(MAINNET, onMAINNET ns); (KOVAN, onKOVAN ns); (ROPSTEN, onROPSTEN ns)].

(** ** Built-ins *)

(** [String.prototype.trim] on the white space of the ASCII range (tab, line
    feed, vertical tab, form feed, carriage return, space).  The texts that
    [lib.ts] trims begin and end with characters of that range. *)
Definition isWhiteSpace (c : ascii) : bool :=
  match nat_of_ascii c with
  | 9 | 10 | 11 | 12 | 13 | 32 => true
  | _ => false
  end.

Fixpoint trimStart (s : string) : string :=
  match s with
  | EmptyString => EmptyString
  | String c rest => if isWhiteSpace c then trimStart rest else s
  end.

Fixpoint trimEnd (s : string) : string :=
  match s with
  | EmptyString => EmptyString
  | String c rest =>
      match trimEnd rest with
      | EmptyString => if isWhiteSpace c then EmptyString else String c EmptyString
      | kept => String c kept
      end
  end.

Definition trim (s : string) : string := trimEnd (trimStart s).

(** [new Set(val)] and its spread: a [Set] keeps the first occurrence of each
    value, in insertion order. *)
Definition Set_add (s : list string) (x : string) : list string :=
  if in_dec string_dec x s then s else (s ++ [x])%list.

Definition new_Set (val : list string) : list string := fold_left Set_add val [].

(** ** What the module calls and does not define

    The file system helpers of [./utils], the two protocol writers of
    [./protocols], [SupportedProtocolsArray] and [IContractImport] of
    [./daisconfig], and the built-ins [toUpperCase] and [path.resolve].  The
    file system is an abstract state [Disk]; a helper either resolves
    ([None]) or rejects ([Some e]). *)
Class Host : Type := {
  Disk : Type;
  IContractImport : Type;
  protocol : IContractImport -> string;
  toUpperCase : string -> string;
  pathResolve : string -> string;
  makeDir : string -> Disk -> Disk * option JsError;
  makeFile : string -> string -> Disk -> Disk * option JsError;
  SupportedProtocolsArray : list SupportedProtocol;
  BancorWriter : string -> string -> NetChoice -> IContractImport -> Disk ->
                 Disk * (JsError + IWriterReturn);
  DyDxWriter : string -> string -> NetChoice -> IContractImport -> Disk ->
               Disk * (JsError + IWriterReturn)
}.

(** What the module does to its collaborators, in the order it does it. *)
Inductive Event : Type :=
| EvMakeDir (path : string)
| EvMakeFile (path contents : string)
| EvLogError (protocolId : string).

(** ** The engine *)

Section Engine.
Context {host : Host}.

(** The private fields of the [ProtocolFileWriter] singleton, together with
    the file system it acts on and the record of its calls. *)
Record World : Type := {
  madeDirs : Obj.t SupportedProtocol bool;
  addresses : Obj.t Bucket Networks;
  abis : Obj.t Bucket (list IABIReturn);
  disk : Disk;
  trace : list Event
}.

Definition with_madeDirs (m : Obj.t SupportedProtocol bool) (w : World) : World :=
  {| madeDirs := m; addresses := addresses w; abis := abis w;
     disk := disk w; trace := trace w |}.

Definition with_addresses (a : Obj.t Bucket Networks) (w : World) : World :=
  {| madeDirs := madeDirs w; addresses := a; abis := abis w;
     disk := disk w; trace := trace w |}.

Definition with_abis (a : Obj.t Bucket (list IABIReturn)) (w : World) : World :=
  {| madeDirs := madeDirs w; addresses := addresses w; abis := a;
     disk := disk w; trace := trace w |}.

Definition with_disk (d : Disk) (w : World) : World :=
  {| madeDirs := madeDirs w; addresses := addresses w; abis := abis w;
     disk := d; trace := trace w |}.

Definition emit (e : Event) (w : World) : World :=
  {| madeDirs := madeDirs w; addresses := addresses w; abis := abis w;
     disk := disk w; trace := (trace w ++ [e])%list |}.

(** *** Field initialisers (lines 34-77) *)

(** [#madeDirs]: every protocol of [SupportedProtocolsArray] set to
    [false]. *)
Definition init_madeDirs : Obj.t SupportedProtocol bool :=
  fold_left (fun protocolObject p => Obj.set SupportedProtocol_eq_dec p false protocolObject)
            SupportedProtocolsArray [].

(** [#addresses]: three empty arrays per protocol, then the ERROR entry. *)
Definition init_addresses : Obj.t Bucket Networks :=
  Obj.set Bucket_eq_dec ERROR noAddresses
    (fold_left (fun obj p => Obj.set Bucket_eq_dec (Proto p) noAddresses obj)
               SupportedProtocolsArray []).

(** [#abis]: an empty array per protocol, then the ERROR entry. *)
Definition init_abis : Obj.t Bucket (list IABIReturn) :=
  Obj.set Bucket_eq_dec ERROR []
    (fold_left (fun obj p => Obj.set Bucket_eq_dec (Proto p) [] obj)
               SupportedProtocolsArray []).

(** [new ProtocolFileWriter()], evaluated once when the module is loaded
    (line 27). *)
Definition instance (d : Disk) : World :=
  {| madeDirs := init_madeDirs; addresses := init_addresses; abis := init_abis;
     disk := d; trace := [] |}.

(** *** File system calls *)

Definition call_makeDir (path : string) (w : World) : World * option JsError :=
  let (d, r) := makeDir path (disk w) in
  (with_disk d (emit (EvMakeDir path) w), r).

Definition call_makeFile (path contents : string) (w : World) : World * option JsError :=
  let (d, r) := makeFile path contents (disk w) in
  (with_disk d (emit (EvMakeFile path contents) w), r).

(** The rejection of a [Promise.all] over calls that complete in the order
    they were made: the first one.  When several calls reject, [Promise.all]
    rejects with the rejection that arrives first, and which one that is
    belongs to the file system; what is stated below about such a rejection
    is only that it is the rejection of one of the calls. *)
Definition first_rejection (a b : option JsError) : option JsError :=
  match a with
  | Some e => Some e
  | None => b
  end.

(** [Promise.all(paths.map(makeDir))]: every call is made, whether or not an
    earlier one rejects. *)
Fixpoint makeDirs (paths : list string) (w : World) : World * option JsError :=
  match paths with
  | [] => (w, None)
  | path :: rest =>
      let (w1, r1) := call_makeDir path w in
      let (w2, r2) := makeDirs rest w1 in
      (w2, first_rejection r1 r2)
  end.

(** [makeBaseDirs] (lines 264-271). *)
Definition makeBaseDirs (dir : string) (w : World) : World * option JsError :=
  makeDirs [ pathResolve (dir ++ "/contracts/interfaces");
             pathResolve (dir ++ "/contracts/libraries");
             pathResolve (dir ++ "/lib");
             pathResolve (dir ++ "/migrations") ] w.

(** *** Generators (lines 193-261)

    The promise a generator returns is in one of three states.  [#bancor] and
    [#dydx] suspend twice: on the directories ([AwaitDirs]) and on the
    protocol writer ([AwaitWriter]); then the promise is settled
    ([Returned]).  The other generators return a settled promise at once. *)
Inductive Suspending : Type := viaBancor | viaDyDx.

Inductive Invocation : Type :=
| AwaitDirs (g : Suspending) (ci : IContractImport)
| AwaitWriter (g : Suspending) (ci : IContractImport)
| Returned (r : JsError + IWriterReturn).

(** The flag of [#madeDirs] that the generator tests and sets. *)
Definition flag (g : Suspending) : SupportedProtocol :=
  match g with
  | viaBancor => BANCOR
  | viaDyDx => DYDX
  end.

(** The directories it makes (lines 202 and 219-220). *)
Definition generatorDirs (g : Suspending) (dir : string) : list string :=
  match g with
  | viaBancor => [ pathResolve (dir ++ "/contracts/interfaces/Bancor") ]
  | viaDyDx => [ pathResolve (dir ++ "/contracts/interfaces/DyDx");
                 pathResolve (dir ++ "/contracts/libraries/DyDx") ]
  end.

(** The writer it returns the promise of (lines 208 and 226). *)
Definition writer (g : Suspending) :
  string -> string -> NetChoice -> IContractImport -> Disk -> Disk * (JsError + IWriterReturn) :=
  match g with
  | viaBancor => BancorWriter
  | viaDyDx => DyDxWriter
  end.

(** [this.#madeDirs.X] in a condition: a missing key reads [undefined],
    which is falsy. *)
Definition madeDirs_flag (p : SupportedProtocol) (w : World) : bool :=
  match Obj.get SupportedProtocol_eq_dec p (madeDirs w) with
  | Some b => b
  | None => false
  end.

Definition Generator : Type :=
  string -> string -> NetChoice -> IContractImport -> World -> World * Invocation.

(** The part of [#bancor] / [#dydx] that runs before the first suspension:
    the test of the flag. *)
Definition suspending (g : Suspending) : Generator :=
  fun dir solver net ci w =>
    if negb (madeDirs_flag (flag g) w)
    then (w, AwaitDirs g ci)
    else (w, AwaitWriter g ci).

(** KYBER, ONEINCH, UNISWAP (lines 246-254). *)
Definition noop : Generator :=
  fun dir solver net ci w => (w, Returned (inr emptyReturn)).

(** ERROR (lines 255-260): logs, then returns the same empty value. *)
Definition unsupported : Generator :=
  fun dir solver net ci w =>
    (emit (EvLogError (protocol ci)) w, Returned (inr emptyReturn)).

(** The table [protocols] (lines 243-261). *)
Definition protocols (key : Bucket) : Generator :=
  match key with
  | Proto BANCOR => suspending viaBancor
  | Proto DYDX => suspending viaDyDx
  | Proto KYBER => noop
  | Proto ONEINCH => noop
  | Proto UNISWAP => noop
  | ERROR => unsupported
  end.

(** Resuming a suspended generator once what it awaits has completed.  The
    calls to [makeDir] and to the writer are recorded here, in the turn that
    resumes the generator; the source makes them when the generator is
    invoked (lines 201-203, 208).  The record therefore tells which calls
    were made and, for one generator, in which order, not how the calls of
    different elements interleave. *)
Definition resume (dir solver : string) (net : NetChoice)
                  (inv : Invocation) (w : World) : World * Invocation :=
  match inv with
  | AwaitDirs g ci =>
      let (w1, r) := makeDirs (generatorDirs g dir) w in
      match r with
      | Some e => (w1, Returned (inl e))
      | None =>
          (with_madeDirs (Obj.set SupportedProtocol_eq_dec (flag g) true (madeDirs w1)) w1,
           AwaitWriter g ci)
      end
  | AwaitWriter g ci =>
      let (d, r) := writer g dir solver net ci (disk w) in
      (with_disk d w, Returned r)
  | Returned r => (w, inv)
  end.

(** *** [#work] (lines 109-135) *)

(** [this.protocols[key]] for a string [key]: the own keys of the table.
    (A result of [toUpperCase] holds no lower-case letter, so it names no
    member inherited from [Object.prototype].) *)
Definition protocols_key (key : string) : option Bucket :=
  find (fun b => String.eqb (bucket_name b) key)
       [Proto BANCOR; Proto DYDX; Proto KYBER; Proto ONEINCH; Proto UNISWAP; ERROR].

(** Lines 116-117. *)
Definition route (ci : IContractImport) : Bucket :=
  match protocols_key (toUpperCase (protocol ci)) with
  | Some key => key
  | None => ERROR
  end.

(** The callback of [.then] (lines 120-133) up to its [return]: the pushes
    into [#abis] and [#addresses].  Reading an array under a key the table
    does not have raises a [TypeError], and what was pushed before stays
    pushed. *)
Definition push_abis (key : Bucket) (items : list IABIReturn) (w : World)
  : World * option JsError :=
  match Obj.get Bucket_eq_dec key (abis w) with
  | None => (w, Some (TypeError "Cannot read properties of undefined (reading 'push')"))
  | Some arr => (with_abis (Obj.set Bucket_eq_dec key (arr ++ items)%list (abis w)) w, None)
  end.

Definition push_address (key : Bucket) (address : IAddressReturn) (w : World)
  : World * option JsError :=
  match Obj.get Bucket_eq_dec key (addresses w) with
  | None => (w, Some (TypeError "Cannot read properties of undefined"))
  | Some nets =>
      (with_addresses
         (Obj.set Bucket_eq_dec key
            (net_push (NET address)
               {| entryContractName := ContractName address;
                  entryAddress := Address address |} nets)
            (addresses w)) w,
       None)
  end.

Fixpoint push_addresses (key : Bucket) (l : list IAddressReturn) (w : World)
  : World * option JsError :=
  match l with
  | [] => (w, None)
  | address :: rest =>
      let (w1, r) := push_address key address w in
      match r with
      | Some e => (w1, Some e)
      | None => push_addresses key rest w1
      end
  end.

Definition fold_result (key : Bucket) (val : IWriterReturn) (w : World)
  : World * option JsError :=
  let (w1, r) := push_abis key (ABIs val) w in
  match r with
  | Some e => (w1, Some e)
  | None => push_addresses key (Addresses val) w1
  end.

(** One element of the array handed to [Promise.all]: the promise of
    [generator(...).then(...)]. *)
Inductive Task : Type :=
| Running (protocolKey : Bucket) (inv : Invocation)
| Settled (r : JsError + string).

(** The body of the [map] callback up to the first suspension. *)
Definition start (solver : string) (dir : string) (net : NetChoice)
                 (ci : IContractImport) (w : World) : World * Task :=
  let key := route ci in
  let (w1, inv) := protocols key dir solver net ci w in
  (w1, Running key inv).

Fixpoint start_all (solver : string) (dir : string) (net : NetChoice)
                   (contractImports : list IContractImport) (w : World)
  : World * list Task :=
  match contractImports with
  | [] => (w, [])
  | ci :: rest =>
      let (w1, t) := start solver dir net ci w in
      let (w2, ts) := start_all solver dir net rest w1 in
      (w2, t :: ts)
  end.

(** One turn of the event loop on one element. *)
Definition task_step (solver : string) (dir : string) (net : NetChoice)
                     (t : Task) (w : World) : World * Task :=
  match t with
  | Running key (Returned (inr val)) =>
      let (w1, r) := fold_result key val w in
      match r with
      | Some e => (w1, Settled (inl e))
      | None => (w1, Settled (inr (Pack val)))
      end
  | Running key (Returned (inl e)) => (w, Settled (inl e))
  | Running key inv =>
      let (w1, inv1) := resume dir solver net inv w in
      (w1, Running key inv1)
  | Settled _ => (w, t)
  end.

(** The array of promises with the state of [Promise.all] over it: the first
    rejection, once there is one. *)
Record Pool : Type := {
  tasks : list Task;
  rejection : option JsError
}.

Fixpoint set_nth (i : nat) (t : Task) (l : list Task) : list Task :=
  match l, i with
  | [], _ => []
  | _ :: rest, O => t :: rest
  | x :: rest, S j => x :: set_nth j t rest
  end.

Definition rejected_with (t : Task) : option JsError :=
  match t with
  | Settled (inl e) => Some e
  | _ => None
  end.

Definition pool_step (solver : string) (dir : string) (net : NetChoice)
                     (i : nat) (st : World * Pool) : World * Pool :=
  let (w, pool) := st in
  match nth_error (tasks pool) i with
  | None => st
  | Some t =>
      let (w1, t1) := task_step solver dir net t w in
      (w1, {| tasks := set_nth i t1 (tasks pool);
              rejection := first_rejection (rejection pool) (rejected_with t1) |})
  end.

(** The event loop resumes the elements in the order of the schedule. *)
Definition run_schedule (solver : string) (dir : string) (net : NetChoice)
                        (schedule : list nat) (st : World * Pool) : World * Pool :=
  fold_left (fun st i => pool_step solver dir net i st) schedule st.

Fixpoint all_resolved (ts : list Task) : option (list string) :=
  match ts with
  | [] => Some []
  | Settled (inr v) :: rest =>
      match all_resolved rest with
      | Some vs => Some (v :: vs)
      | None => None
      end
  | _ :: rest => None
  end.

(** The state of [Promise.all(contractImports.map(...))]. *)
Definition Promise_all (pool : Pool) : Promise (list string) :=
  match rejection pool with
  | Some e => Rejected e
  | None =>
      match all_resolved (tasks pool) with
      | Some vals => Resolved vals
      | None => Pending
      end
  end.

Definition work (solver : string) (contractImports : list IContractImport)
                (dir : string) (net : NetChoice) (schedule : list nat) (w : World)
  : World * Pool :=
  let (w1, ts) := start_all solver dir net contractImports w in
  run_schedule solver dir net schedule (w1, {| tasks := ts; rejection := None |}).

(** *** [#buildABIFile] (lines 137-156) *)

(** The text before [trim]: the two nested loops, appending to
    [ABIfile]. *)
Definition ABIfile_of (table : Obj.t Bucket (list IABIReturn)) : string :=
  fold_left
    (fun ABIfile entry =>
       let '(key, items) := entry in
       if (length items =? 0)%nat || String.eqb (bucket_name key) "ERROR"
       then ABIfile
       else
         let ABIfile := ABIfile ++ nl ++ "export const " ++ bucket_name key ++ "_ABI = {" in
         let ABIfile :=
           fold_left (fun ABIfile abi => ABIfile ++ nl ++ "  " ++ ABI abi ++ ",")
                     items ABIfile in
         ABIfile ++ nl ++ "}")
    (Obj.entries table) EmptyString.

Definition abis_text (w : World) : string := trim (ABIfile_of (abis w)).

Definition buildABIFile (dir : string) (w : World) : World * option JsError :=
  call_makeFile (pathResolve (dir ++ "/lib/abis.ts")) (abis_text w) w.

(** *** [#buildAddressesFile] (lines 158-191) *)

(** Lines 165-167 read the three arrays through [this.#addresses[protocol]]:
    the value under the key being listed. *)
Definition AddressesFile_of (table : Obj.t Bucket Networks) : string :=
  fold_left
    (fun AddressesFile entry =>
       let '(key, networks) := entry in
       if String.eqb (bucket_name key) "ERROR" then AddressesFile
       else if (length (onMAINNET networks) =? 0)%nat
               && (length (onKOVAN networks) =? 0)%nat
               && (length (onROPSTEN networks) =? 0)%nat
       then AddressesFile
       else
         let AddressesFile := AddressesFile ++ nl ++ "  " ++ bucket_name key ++ ": {" in
         let AddressesFile :=
           fold_left
             (fun AddressesFile netEntry =>
                let '(net, items) := netEntry in
                if (length items =? 0)%nat then AddressesFile
                else
                  let AddressesFile :=
                    AddressesFile ++ nl ++ "    " ++ network_name net ++ ": {" in
                  let AddressesFile :=
                    fold_left
                      (fun AddressesFile address =>
                         AddressesFile ++ nl ++ "      " ++ entryContractName address
                                       ++ ": " ++ entryAddress address ++ ",")
                      items AddressesFile in
                  AddressesFile ++ nl ++ "    },")
             (net_entries networks) AddressesFile in
         AddressesFile ++ nl ++ "  }," ++ nl)
    (Obj.entries table) "export const Addresses = {"
  ++ nl ++ "}".

Definition addresses_text (w : World) : string := trim (AddressesFile_of (addresses w)).

Definition buildAddressesFile (dir : string) (w : World) : World * option JsError :=
  call_makeFile (pathResolve (dir ++ "/lib/addresses.ts")) (addresses_text w) w.

(** *** [main] (lines 89-107) *)

(** [Promise.all([this.#buildABIFile(dir), this.#buildAddressesFile(dir)])]:
    both bodies run up to their [makeFile] at once; writing a file does not
    touch the tables, so both texts are those of the same tables.  Both
    writes are asked for whether or not the other rejects; when both reject,
    the rejection taken here is that of [lib/abis.ts], the one the code
    takes is whichever arrives first. *)
Definition buildFiles (dir : string) (w : World) : World * option JsError :=
  let (w1, r1) := buildABIFile dir w in
  let (w2, r2) := buildAddressesFile dir w1 in
  (w2, first_rejection r1 r2).

Definition main (dir : string) (contractImports : list IContractImport)
                (solver : string) (net : NetChoice) (schedule : list nat) (w : World)
  : World * Promise (list string) :=
  let (w1, r) := makeBaseDirs dir w in
  match r with
  | Some e => (w1, Rejected e)
  | None =>
      let (w2, pool) := work solver contractImports dir net schedule w1 in
      match Promise_all pool with
      | Pending => (w2, Pending)
      | Rejected e => (w2, Rejected e)
      | Resolved val =>
          let (w3, r3) := buildFiles dir w2 in
          match r3 with
          | Some e => (w3, Rejected e)
          | None => (w3, Resolved (new_Set val))
          end
      end
  end.

End Engine.

(** ** A concrete host

    [toUpperCase] on the letters of the ASCII range, a file system that lets
    every call succeed, a Bancor writer that returns one ABI, one MAINNET
    address and a package, and a dYdX writer whose outcome is a parameter. *)
Definition upper_ascii (c : ascii) : ascii :=
  let n := nat_of_ascii c in
  if ((97 <=? n) && (n <=? 122))%nat then ascii_of_nat (n - 32) else c.

Fixpoint toUpperCase_ascii (s : string) : string :=
  match s with
  | EmptyString => EmptyString
  | String c rest => String (upper_ascii c) (toUpperCase_ascii rest)
  end.

Definition bancorSample : IWriterReturn :=
  {| ABIs := [ {| ABI := "IBancorNetwork: []" |} ];
     Addresses := [ {| ContractName := "BancorNetwork";
                       Address := "'0x2F9EC37d6CcFFf1caB21733BdaDEdE11c823cCB0'";
                       NET := MAINNET |} ];
     Pack := "@bancor/contracts-solidity" |}.

Definition sampleHost (dydx : JsError + IWriterReturn) : Host :=
  {| Disk := unit;
     IContractImport := string;
     protocol := fun ci => ci;
     toUpperCase := toUpperCase_ascii;
     pathResolve := fun path => path;
     makeDir := fun _ d => (d, None);
     makeFile := fun _ _ d => (d, None);
     SupportedProtocolsArray := [BANCOR; DYDX; KYBER; ONEINCH; UNISWAP];
     BancorWriter := fun _ _ _ _ d => (d, inr bancorSample);
     DyDxWriter := fun _ _ _ _ d => (d, dydx) |}.

Definition okHost : Host := sampleHost (inr emptyReturn).
Definition failingHost : Host := sampleHost (inl (Failure "dydx writer")).

(** ** What a run leaves to observe *)

(** The directories asked of [makeDir], in order. *)
Definition dirs_made (tr : list Event) : list string :=
  flat_map (fun e => match e with EvMakeDir path => [path] | _ => [] end) tr.

(** The files asked of [makeFile], in order, with their contents. *)
Definition files_written (tr : list Event) : list (string * string) :=
  flat_map (fun e => match e with EvMakeFile path contents => [(path, contents)] | _ => [] end) tr.

(** The protocols reported as unsupported, in order. *)
Definition errors_logged (tr : list Event) : list string :=
  flat_map (fun e => match e with EvLogError id => [id] | _ => [] end) tr.

Section Runs.
Context {host : Host}.

(** The generator of a protocol that provisions directories, if it does. *)
Definition provisioning (p : SupportedProtocol) : option Suspending :=
  match p with
  | BANCOR => Some viaBancor
  | DYDX => Some viaDyDx
  | _ => None
  end.


(** A generator invoked and left to run until its promise is settled, with
    nothing else running in between: both of its suspensions are resumed. *)
Definition invoke_alone (key : Bucket) (dir solver : string) (net : NetChoice)
                        (ci : IContractImport) (w : World) : World * Invocation :=
  let (w1, inv1) := protocols key dir solver net ci w in
  let (w2, inv2) := resume dir solver net inv1 w1 in
  resume dir solver net inv2 w2.

(** The values the generator under [key] can resolve with for an import:
    whatever its writer returns on some state of the file system, and the
    empty value for the generators that have no writer. *)
Definition may_return (key : Bucket) (dir solver : string) (net : NetChoice)
                      (ci : IContractImport) (val : IWriterReturn) : Prop :=
  match key with
  | Proto BANCOR => exists d, snd (BancorWriter dir solver net ci d) = inr val
  | Proto DYDX => exists d, snd (DyDxWriter dir solver net ci d) = inr val
  | _ => val = emptyReturn
  end.

(** The string an import contributes to the array [#work] resolves to. *)
Definition pack_of (dir solver : string) (net : NetChoice)
                   (ci : IContractImport) (pack : string) : Prop :=
  exists val, may_return (route ci) dir solver net ci val /\ pack = Pack val.

(** The worlds the singleton can be in: as constructed, and after any number
    of calls of [main], each stopped wherever its schedule stops. *)
Inductive reachable : World -> Prop :=
| reach_instance (d : Disk) : reachable (instance d)
| reach_main (w : World) (dir : string) (cis : list IContractImport) (solver : string)
             (net : NetChoice) (schedule : list nat) :
    reachable w -> reachable (fst (main dir cis solver net schedule w)).

(** Every element of the batch is resumed at least three times: enough for
    the two suspensions of a generator and for the callback of [.then]. *)
Definition fair (n : nat) (schedule : list nat) : Prop :=
  forall i, i < n -> 3 <= count_occ Nat.eq_dec schedule i.

(** A schedule that is fair for [n] elements. *)
Definition round_robin (n : nat) : list nat := seq 0 n ++ seq 0 n ++ seq 0 n.

End Runs.

(** ** The registry formats, as the specification words them

    ABI registry: for each bucket other than ERROR with at least one
    fragment, one export holding the fragments in stored order; the whole
    trimmed.  Address registry: one exported object; for each bucket other
    than ERROR with a record in some network, a nested object per network
    that has records, holding the records in stored order. *)

Definition join (parts : list string) : string := fold_right append EmptyString parts.

Definition spec_abi_line (abi : IABIReturn) : string := nl ++ "  " ++ ABI abi ++ ",".

Definition spec_abi_export (entry : Bucket * list IABIReturn) : string :=
  nl ++ "export const " ++ bucket_name (fst entry) ++ "_ABI = {"
     ++ join (map spec_abi_line (snd entry)) ++ nl ++ "}".

Definition spec_abi_listed (entry : Bucket * list IABIReturn) : bool :=
  negb (if Bucket_eq_dec (fst entry) ERROR then true else false)
  && negb (match snd entry with [] => true | _ => false end).

Definition renderAbiRegistry (table : Obj.t Bucket (list IABIReturn)) : string :=
  trim (join (map spec_abi_export (filter spec_abi_listed table))).

Definition spec_address_line (a : AddressEntry) : string :=
  nl ++ "      " ++ entryContractName a ++ ": " ++ entryAddress a ++ ",".

Definition spec_network_block (entry : SupportedNetwork * list AddressEntry) : string :=
  nl ++ "    " ++ network_name (fst entry) ++ ": {"
     ++ join (map spec_address_line (snd entry)) ++ nl ++ "    },".

Definition spec_network_listed (entry : SupportedNetwork * list AddressEntry) : bool :=
  negb (match snd entry with [] => true | _ => false end).

Definition spec_protocol_block (entry : Bucket * Networks) : string :=
  nl ++ "  " ++ bucket_name (fst entry) ++ ": {"
     ++ join (map spec_network_block (filter spec_network_listed (net_entries (snd entry))))
     ++ nl ++ "  }," ++ nl.

Definition spec_protocol_listed (entry : Bucket * Networks) : bool :=
  negb (if Bucket_eq_dec (fst entry) ERROR then true else false)
  && existsb spec_network_listed (net_entries (snd entry)).

Definition renderAddressRegistry (table : Obj.t Bucket Networks) : string :=
  "export const Addresses = {"
    ++ join (map spec_protocol_block (filter spec_protocol_listed table))
    ++ nl ++ "}".

(** ** Invariants *)

Section Invariants.
Context {host : Host}.

(** Nothing was ever pushed under ERROR. *)
Definition ERROR_bucket_empty (w : World) : Prop :=
  Obj.get Bucket_eq_dec ERROR (abis w) = Some [] /\
  Obj.get Bucket_eq_dec ERROR (addresses w) = Some noAddresses.

(** An element of the array runs under the key its import was routed to; if
    that key is ERROR its generator has returned the empty value, and it is
    settled by resolving with the empty string. *)
Definition ERROR_task (ci : IContractImport) (t : Task) : Prop :=
  match t with
  | Running key inv => key = route ci /\ (key = ERROR -> inv = Returned (inr emptyReturn))
  | Settled r => route ci = ERROR -> r = inr EmptyString
  end.


(** How many turns an element still needs at most. *)
Definition rank (t : Task) : nat :=
  match t with
  | Running _ (AwaitDirs _ _) => 3
  | Running _ (AwaitWriter _ _) => 2
  | Running _ (Returned _) => 1
  | Settled _ => 0
  end.

(** The recorded rejection is that of an element, and there is one as soon as
    an element is rejected. *)
Definition rejection_recorded (pool : Pool) : Prop :=
  match rejection pool with
  | Some e => In (Settled (inl e)) (tasks pool)
  | None => forall e, ~ In (Settled (inl e)) (tasks pool)
  end.

(** Where the state of an element comes from: it runs under the key of its
    import, a suspended generator is the one of that key and holds that
    import, and a value returned or a string resolved with is one the
    generator of that key can produce for that import. *)
Definition provenance (dir solver : string) (net : NetChoice)
                      (ci : IContractImport) (t : Task) : Prop :=
  match t with
  | Running key (AwaitDirs g c) => key = route ci /\ c = ci /\ key = Proto (flag g)
  | Running key (AwaitWriter g c) => key = route ci /\ c = ci /\ key = Proto (flag g)
  | Running key (Returned (inr val)) => key = route ci /\ may_return key dir solver net ci val
  | Running key (Returned (inl _)) => True
  | Settled (inr pack) => pack_of dir solver net ci pack
  | Settled (inl _) => True
  end.

End Invariants.

Section Accumulation.
Context {host : Host}.

(** [w'] holds everything [w] holds: the flags that were set are set, and
    every array of [w] is a prefix of the array under the same key. *)
Definition grows (w w' : World) : Prop :=
  (forall p, madeDirs_flag p w = true -> madeDirs_flag p w' = true) /\
  (forall key items,
      Obj.get Bucket_eq_dec key (abis w) = Some items ->
      exists more, Obj.get Bucket_eq_dec key (abis w') = Some (items ++ more)%list) /\
  (forall key nets,
      Obj.get Bucket_eq_dec key (addresses w) = Some nets ->
      exists nets', Obj.get Bucket_eq_dec key (addresses w') = Some nets' /\
                    forall n, exists more, net_get n nets' = (net_get n nets ++ more)%list).

End Accumulation.

Section Keys.
Context {host : Host}.

(** No key is listed twice by [Object.entries]. *)
Definition distinct_keys (w : World) : Prop :=
  NoDup (Obj.keys (abis w)) /\ NoDup (Obj.keys (addresses w)).

End Keys.

(** ** Further hosts and notions for the properties beyond the claims *)

(** A file system on which no directory can be made. *)
Definition readOnlyHost : Host :=
  {| Disk := unit;
     IContractImport := string;
     protocol := fun ci => ci;
     toUpperCase := toUpperCase_ascii;
     pathResolve := fun path => path;
     makeDir := fun path d => (d, Some (Failure path));
     makeFile := fun _ _ d => (d, None);
     SupportedProtocolsArray := [BANCOR; DYDX; KYBER; ONEINCH; UNISWAP];
     BancorWriter := fun _ _ _ _ d => (d, inr bancorSample);
     DyDxWriter := fun _ _ _ _ d => (d, inr emptyReturn) |}.

(** A [SupportedProtocolsArray] that leaves KYBER, ONEINCH and UNISWAP
    out. *)
Definition partialHost : Host :=
  {| Disk := unit;
     IContractImport := string;
     protocol := fun ci => ci;
     toUpperCase := toUpperCase_ascii;
     pathResolve := fun path => path;
     makeDir := fun _ d => (d, None);
     makeFile := fun _ _ d => (d, None);
     SupportedProtocolsArray := [BANCOR; DYDX];
     BancorWriter := fun _ _ _ _ d => (d, inr bancorSample);
     DyDxWriter := fun _ _ _ _ d => (d, inr emptyReturn) |}.

Definition SupportedNetwork_eq_dec (a b : SupportedNetwork) : {a = b} + {a <> b}.
Proof. decide equality. Defined.

(** The element pushed for an address (lines 126-129). *)
Definition entry_of (address : IAddressReturn) : AddressEntry :=
  {| entryContractName := ContractName address; entryAddress := Address address |}.

(** The addresses of a writer's result that are on network [n], in order. *)
Definition entries_on (n : SupportedNetwork) (l : list IAddressReturn) : list AddressEntry :=
  map entry_of (filter (fun a => if SupportedNetwork_eq_dec (NET a) n then true else false) l).

(** The values of a list in the order of their first occurrence. *)
Fixpoint first_occurrences (l : list string) : list string :=
  match l with
  | [] => []
  | x :: rest => x :: filter (fun y => negb (String.eqb y x)) (first_occurrences rest)
  end.

Section MoreRuns.
Context {host : Host}.

(** The directories of [makeBaseDirs] (lines 267-270). *)
Definition baseDirs (dir : string) : list string :=
  [ pathResolve (dir ++ "/contracts/interfaces");
    pathResolve (dir ++ "/contracts/libraries");
    pathResolve (dir ++ "/lib");
    pathResolve (dir ++ "/migrations") ].

(** A directory of [#bancor] or [#dydx]. *)
Definition generator_dir (dir path : string) : Prop :=
  exists g, In path (generatorDirs g dir).

(** The two files of a run, with the texts of the tables of [w]. *)
Definition registry_files (dir : string) (w : World) : list (string * string) :=
  [ (pathResolve (dir ++ "/lib/abis.ts"), abis_text w);
    (pathResolve (dir ++ "/lib/addresses.ts"), addresses_text w) ].

(** The identifiers of the imports routed to ERROR, in the order of the
    imports. *)
Definition unsupported_ids (cis : list IContractImport) : list string :=
  map protocol (filter (fun ci => if Bucket_eq_dec (route ci) ERROR then true else false) cis).

(** An error that a collaborator of the generator of [ci] gave: [makeDir]
    on one of the generator's directories, or the generator's writer. *)
Definition collaborator_error (dir solver : string) (net : NetChoice)
                              (ci : IContractImport) (e : JsError) : Prop :=
  exists g,
    route ci = Proto (flag g) /\
    ((exists path d, In path (generatorDirs g dir) /\ snd (makeDir path d) = Some e) \/
     (exists d, snd (writer g dir solver net ci d) = inl e)).

(** Both tables have every key. *)
Definition every_key (w : World) : Prop :=
  forall key, In key (Obj.keys (abis w)) /\ In key (Obj.keys (addresses w)).

(** The keys of both tables are those of the constructed singleton, in the
    same order. *)
Definition keys_kept (w : World) : Prop :=
  Obj.keys (abis w) = Obj.keys init_abis /\
  Obj.keys (addresses w) = Obj.keys init_addresses.

(** Where a rejection of an element can come from when no key is missing. *)
Definition rejection_source (dir solver : string) (net : NetChoice)
                            (ci : IContractImport) (t : Task) : Prop :=
  match t with
  | Running key (AwaitDirs g c) => key = route ci /\ c = ci /\ key = Proto (flag g)
  | Running key (AwaitWriter g c) => key = route ci /\ c = ci /\ key = Proto (flag g)
  | Running key (Returned (inl e)) => collaborator_error dir solver net ci e
  | Running key (Returned (inr _)) => True
  | Settled (inl e) => collaborator_error dir solver net ci e
  | Settled (inr _) => True
  end.

(** What the flags say in a reachable world. *)
Definition flags_sound (w : World) : Prop :=
  (forall p, provisioning p = None -> madeDirs_flag p w = false) /\
  (forall g, madeDirs_flag (flag g) w = true ->
             exists dir, incl (generatorDirs g dir) (dirs_made (trace w))).

Definition awaits_dirs (t : Task) : bool :=
  match t with
  | Running _ (AwaitDirs _ _) => true
  | _ => false
  end.

End MoreRuns.

(** * Properties *)

Unset Implicit Arguments.

(** ** Tables *)

Section ObjFacts.
Variables K V : Type.
Variable K_eq_dec : forall a b : K, {a = b} + {a <> b}.

Lemma get_set_same (k : K) (v : V) (o : Obj.t K V) :
  Obj.get K_eq_dec k (Obj.set K_eq_dec k v o) = Some v.
Proof.
  induction o as [|[k' v'] rest IH]; simpl.
  - destruct (K_eq_dec k k); congruence.
  - destruct (K_eq_dec k k') as [Heq|Hne]; simpl.
    + destruct (K_eq_dec k k); congruence.
    + destruct (K_eq_dec k k'); [contradiction | exact IH].
Qed.

Lemma get_set_other (k k' : K) (v : V) (o : Obj.t K V) :
  k <> k' -> Obj.get K_eq_dec k' (Obj.set K_eq_dec k v o) = Obj.get K_eq_dec k' o.
Proof.
  intros Hne. induction o as [|[k0 v0] rest IH]; simpl.
  - destruct (K_eq_dec k' k); congruence.
  - destruct (K_eq_dec k k0) as [Heq|Hk]; simpl.
    + destruct (K_eq_dec k' k), (K_eq_dec k' k0); congruence.
    + destruct (K_eq_dec k' k0); [reflexivity | exact IH].
Qed.

Lemma keys_set_present (k : K) (v v0 : V) (o : Obj.t K V) :
  Obj.get K_eq_dec k o = Some v0 -> Obj.keys (Obj.set K_eq_dec k v o) = Obj.keys o.
Proof.
  unfold Obj.keys. induction o as [|[k' v'] rest IH]; simpl; [discriminate|].
  destruct (K_eq_dec k k') as [->|Hne]; simpl; [reflexivity|].
  intros H. f_equal. exact (IH H).
Qed.

Lemma set_same_value (k : K) (v : V) (o : Obj.t K V) :
  Obj.get K_eq_dec k o = Some v -> Obj.set K_eq_dec k v o = o.
Proof.
  induction o as [|[k' v'] rest IH]; simpl; [discriminate|].
  destruct (K_eq_dec k k') as [->|Hne].
  - intros [= ->]. reflexivity.
  - intros H. f_equal. exact (IH H).
Qed.

Lemma in_keys_set (k k' : K) (v : V) (o : Obj.t K V) :
  In k' (Obj.keys (Obj.set K_eq_dec k v o)) <-> k' = k \/ In k' (Obj.keys o).
Proof.
  unfold Obj.keys. induction o as [|[k0 v0] rest IH]; simpl.
  - intuition congruence.
  - destruct (K_eq_dec k k0) as [->|Hne]; simpl.
    + intuition congruence.
    + rewrite IH. intuition congruence.
Qed.

Lemma NoDup_keys_set (k : K) (v : V) (o : Obj.t K V) :
  NoDup (Obj.keys o) -> NoDup (Obj.keys (Obj.set K_eq_dec k v o)).
Proof.
  induction o as [|[k0 v0] rest IH]; simpl; intros Hnd.
  - constructor; [simpl; tauto | constructor].
  - inversion Hnd as [|? ? Hnotin Hrest]; subst.
    destruct (K_eq_dec k k0) as [->|Hne]; simpl.
    + constructor; assumption.
    + constructor; [|exact (IH Hrest)].
      intros Hin. apply in_keys_set in Hin. destruct Hin as [->|Hin]; auto.
Qed.
End ObjFacts.

(** ** [Set] *)

Lemma Set_add_in (s : list string) (x y : string) :
  In y (Set_add s x) <-> In y s \/ y = x.
Proof.
  unfold Set_add. destruct (in_dec string_dec x s) as [Hin|Hnot].
  - split; [tauto|]. intros [H| ->]; assumption.
  - rewrite in_app_iff. simpl. intuition congruence.
Qed.

Lemma Set_add_NoDup (s : list string) (x : string) :
  NoDup s -> NoDup (Set_add s x).
Proof.
  unfold Set_add. intros Hnd. destruct (in_dec string_dec x s) as [Hin|Hnot]; [assumption|].
  apply NoDup_app; [assumption | constructor; [simpl; tauto | constructor] |].
  intros a Ha [<-|[]]. exact (Hnot Ha).
Qed.

Lemma fold_Set_add_in (val s : list string) (y : string) :
  In y (fold_left Set_add val s) <-> In y s \/ In y val.
Proof.
  revert s. induction val as [|x rest IH]; simpl; intros s; [tauto|].
  rewrite IH, Set_add_in. intuition congruence.
Qed.

Lemma fold_Set_add_NoDup (val s : list string) :
  NoDup s -> NoDup (fold_left Set_add val s).
Proof.
  revert s. induction val as [|x rest IH]; simpl; intros s Hnd; [assumption|].
  apply IH, Set_add_NoDup, Hnd.
Qed.

Lemma new_Set_in (val : list string) (y : string) : In y (new_Set val) <-> In y val.
Proof. unfold new_Set. rewrite fold_Set_add_in. simpl. tauto. Qed.

Lemma new_Set_NoDup (val : list string) : NoDup (new_Set val).
Proof. apply fold_Set_add_NoDup. constructor. Qed.

Lemma new_Set_once (val : list string) (y : string) :
  In y val -> count_occ string_dec (new_Set val) y = 1.
Proof.
  intros Hin. apply new_Set_in in Hin.
  pose proof (new_Set_NoDup val) as Hnd.
  rewrite (NoDup_count_occ string_dec) in Hnd. specialize (Hnd y).
  apply (count_occ_In string_dec) in Hin. lia.
Qed.

(** ** Invariants of a run

    A property of the world that every step keeps, together with a relation
    between each import and its element of the array that every step keeps,
    holds after [#work] under every schedule, and the property of the world
    holds after [main]. *)

Section RunInvariant.
Context {host : Host}.
Variables (solver dir : string) (net : NetChoice).
Variable P : World -> Prop.
Variable R : IContractImport -> Task -> Prop.

Hypothesis start_keeps : forall ci w,
  P w -> P (fst (start solver dir net ci w)) /\ R ci (snd (start solver dir net ci w)).
Hypothesis step_keeps : forall ci t w,
  P w -> R ci t ->
  P (fst (task_step solver dir net t w)) /\ R ci (snd (task_step solver dir net t w)).

Lemma start_all_keeps (cis : list IContractImport) (w : World) :
  P w ->
  P (fst (start_all solver dir net cis w)) /\
  Forall2 R cis (snd (start_all solver dir net cis w)).
Proof.
  revert w. induction cis as [|ci rest IH]; simpl; intros w Hw.
  - split; [assumption | constructor].
  - destruct (start_keeps ci w Hw) as [HP HR].
    destruct (start solver dir net ci w) as [w1 t]. simpl in *.
    destruct (IH w1 HP) as [HP2 HR2].
    destruct (start_all solver dir net rest w1) as [w2 ts]. simpl in *.
    split; [assumption | constructor; assumption].
Qed.

Lemma Forall2_set_nth (cis : list IContractImport) (ts : list Task) (i : nat) (t t1 : Task) :
  Forall2 R cis ts -> nth_error ts i = Some t ->
  (forall ci, R ci t -> R ci t1) ->
  Forall2 R cis (set_nth i t1 ts).
Proof.
  intros HF. revert i. induction HF as [|ci t0 cis ts Hhd Htl IH]; intros i Hi Himp.
  - destruct i; discriminate.
  - destruct i as [|j]; simpl in *.
    + injection Hi as ->. constructor; auto.
    + constructor; auto.
Qed.

Lemma Forall2_nth_error (cis : list IContractImport) (ts : list Task) (i : nat) (t : Task) :
  Forall2 R cis ts -> nth_error ts i = Some t ->
  exists ci, nth_error cis i = Some ci /\ R ci t.
Proof.
  intros HF. revert i. induction HF as [|ci t0 cis ts Hhd Htl IH]; intros i Hi.
  - destruct i; discriminate.
  - destruct i as [|j]; simpl in *.
    + injection Hi as ->. eauto.
    + eauto.
Qed.

Lemma pool_step_keeps (cis : list IContractImport) (i : nat) (w : World) (pool : Pool) :
  P w -> Forall2 R cis (tasks pool) ->
  P (fst (pool_step solver dir net i (w, pool))) /\
  Forall2 R cis (tasks (snd (pool_step solver dir net i (w, pool)))).
Proof.
  intros Hw HF. unfold pool_step.
  destruct (nth_error (tasks pool) i) as [t|] eqn:Hi; [|split; assumption].
  destruct (Forall2_nth_error _ _ i t HF Hi) as (ci & _ & Hci).
  pose proof (step_keeps ci t w Hw Hci) as [HP HR].
  pose proof (fun ci' (H' : R ci' t) => proj2 (step_keeps ci' t w Hw H')) as Hall.
  destruct (task_step solver dir net t w) as [w1 t1]. simpl in *.
  split; [assumption|]. eapply Forall2_set_nth; eauto.
Qed.

Lemma run_schedule_keeps (cis : list IContractImport) (schedule : list nat)
                         (w : World) (pool : Pool) :
  P w -> Forall2 R cis (tasks pool) ->
  P (fst (run_schedule solver dir net schedule (w, pool))) /\
  Forall2 R cis (tasks (snd (run_schedule solver dir net schedule (w, pool)))).
Proof.
  unfold run_schedule. revert w pool.
  induction schedule as [|i rest IH]; cbn [fold_left]; intros w pool Hw HF; [split; assumption|].
  destruct (pool_step_keeps cis i w pool Hw HF) as [HP HR].
  destruct (pool_step solver dir net i (w, pool)) as [w1 pool1]. cbn [fst snd] in *.
  apply IH; assumption.
Qed.

Lemma work_keeps (cis : list IContractImport) (schedule : list nat) (w : World) :
  P w ->
  P (fst (work solver cis dir net schedule w)) /\
  Forall2 R cis (tasks (snd (work solver cis dir net schedule w))).
Proof.
  intros Hw. unfold work.
  destruct (start_all_keeps cis w Hw) as [HP HR].
  destruct (start_all solver dir net cis w) as [w1 ts]. simpl in *.
  apply run_schedule_keeps; assumption.
Qed.

Hypothesis makeDir_keeps : forall path w, P w -> P (fst (call_makeDir path w)).
Hypothesis makeFile_keeps : forall path contents w, P w -> P (fst (call_makeFile path contents w)).

Lemma makeDirs_keeps (paths : list string) (w : World) :
  P w -> P (fst (makeDirs paths w)).
Proof.
  revert w. induction paths as [|path rest IH]; simpl; intros w Hw; [assumption|].
  pose proof (makeDir_keeps path w Hw) as H1.
  destruct (call_makeDir path w) as [w1 r1]. simpl in *.
  pose proof (IH w1 H1) as H2.
  destruct (makeDirs rest w1) as [w2 r2]. exact H2.
Qed.

Lemma buildFiles_keeps (w : World) : P w -> P (fst (buildFiles dir w)).
Proof.
  intros Hw. unfold buildFiles, buildABIFile, buildAddressesFile.
  pose proof (makeFile_keeps (pathResolve (dir ++ "/lib/abis.ts")) (abis_text w) w Hw) as H1.
  destruct (call_makeFile _ (abis_text w) w) as [w1 r1]. simpl in *.
  pose proof (makeFile_keeps (pathResolve (dir ++ "/lib/addresses.ts")) (addresses_text w1) w1 H1) as H2.
  destruct (call_makeFile _ (addresses_text w1) w1) as [w2 r2]. exact H2.
Qed.

Lemma main_keeps (cis : list IContractImport) (schedule : list nat) (w : World) :
  P w -> P (fst (main dir cis solver net schedule w)).
Proof.
  intros Hw. unfold main, makeBaseDirs.
  pose proof (makeDirs_keeps
    [pathResolve (dir ++ "/contracts/interfaces"); pathResolve (dir ++ "/contracts/libraries");
     pathResolve (dir ++ "/lib"); pathResolve (dir ++ "/migrations")] w Hw) as H1.
  destruct (makeDirs _ w) as [w1 r1]. simpl in H1.
  destruct r1 as [e|]; [exact H1|].
  pose proof (proj1 (work_keeps cis schedule w1 H1)) as H2.
  destruct (work solver cis dir net schedule w1) as [w2 pool]. simpl in H2.
  destruct (Promise_all pool) as [|val|e]; try exact H2.
  pose proof (buildFiles_keeps w2 H2) as H3.
  destruct (buildFiles dir w2) as [w3 r3]. simpl in H3.
  destruct r3; exact H3.
Qed.
End RunInvariant.

(** ** Strings *)

Lemma append_nil_r (s : string) : s ++ EmptyString = s.
Proof. induction s as [|c s IH]; simpl; [reflexivity | now rewrite IH]. Qed.

Lemma append_assoc (a b c : string) : (a ++ b) ++ c = a ++ b ++ c.
Proof. induction a as [|x a IH]; simpl; [reflexivity | now rewrite IH]. Qed.

Lemma fold_left_append {A : Type} (f : A -> string) (l : list A) (acc : string) :
  fold_left (fun acc a => acc ++ f a) l acc = acc ++ join (map f l).
Proof.
  revert acc. induction l as [|a l IH]; simpl; intros acc.
  - now rewrite append_nil_r.
  - now rewrite IH, append_assoc.
Qed.

(** A loop that appends a block per entry and skips some entries with
    [continue] writes the blocks of the entries it does not skip. *)
Lemma fold_left_blocks {A : Type} (skip : A -> bool) (block : A -> string)
                       (step : string -> A -> string) :
  (forall acc a, step acc a = if skip a then acc else acc ++ block a) ->
  forall l acc,
    fold_left step l acc = acc ++ join (map block (filter (fun a => negb (skip a)) l)).
Proof.
  intros Hstep. induction l as [|a l IH]; simpl; intros acc.
  - now rewrite append_nil_r.
  - rewrite IH, Hstep. destruct (skip a); simpl; [reflexivity | now rewrite append_assoc].
Qed.

Lemma trimEnd_closing_brace (s : string) : trimEnd (s ++ "}") = s ++ "}".
Proof.
  induction s as [|c s IH]; [reflexivity|].
  change (String c s ++ "}") with (String c (s ++ "}")).
  cbn [trimEnd]. rewrite IH.
  destruct (s ++ "}") eqn:E; [|reflexivity].
  destruct s; discriminate.
Qed.

Lemma trim_Addresses (body : string) :
  trim ("export const Addresses = {" ++ body ++ nl ++ "}")
  = "export const Addresses = {" ++ body ++ nl ++ "}".
Proof.
  unfold trim.
  replace ("export const Addresses = {" ++ body ++ nl ++ "}")
    with (("export const Addresses = {" ++ body ++ nl) ++ "}")
    by now rewrite !append_assoc.
  replace (trimStart (("export const Addresses = {" ++ body ++ nl) ++ "}"))
    with (("export const Addresses = {" ++ body ++ nl) ++ "}") by reflexivity.
  apply trimEnd_closing_brace.
Qed.

Lemma is_ERROR_name (key : Bucket) :
  String.eqb (bucket_name key) "ERROR" = if Bucket_eq_dec key ERROR then true else false.
Proof.
  destruct key as [p|].
  - destruct (Bucket_eq_dec (Proto p) ERROR); [discriminate|]. now destruct p.
  - destruct (Bucket_eq_dec ERROR ERROR); [reflexivity | contradiction].
Qed.

Lemma length_zero_nil {A : Type} (l : list A) :
  (length l =? 0)%nat = match l with [] => true | _ => false end.
Proof. now destruct l. Qed.

(** ** The renderers *)

Lemma ABIfile_of_blocks (table : Obj.t Bucket (list IABIReturn)) :
  ABIfile_of table = join (map spec_abi_export (filter spec_abi_listed table)).
Proof.
  unfold ABIfile_of, Obj.entries.
  rewrite (fold_left_blocks
             (fun entry => (length (snd entry) =? 0)%nat
                           || String.eqb (bucket_name (fst entry)) "ERROR")
             spec_abi_export).
  - rewrite (filter_ext _ spec_abi_listed); [reflexivity|]. intros [key items].
    unfold spec_abi_listed. cbn [fst snd]. rewrite is_ERROR_name, length_zero_nil.
    destruct items, (Bucket_eq_dec key ERROR); reflexivity.
  - intros acc [key items]. cbn [fst snd].
    destruct ((length items =? 0)%nat || String.eqb (bucket_name key) "ERROR"); [reflexivity|].
    rewrite (fold_left_append spec_abi_line). unfold spec_abi_export. cbn [fst snd].
    now rewrite !append_assoc.
Qed.

Lemma network_blocks (networks : Networks) (acc : string) :
  fold_left
    (fun AddressesFile (netEntry : SupportedNetwork * list AddressEntry) =>
       let '(net, items) := netEntry in
       if (length items =? 0)%nat then AddressesFile
       else
         let AddressesFile := AddressesFile ++ nl ++ "    " ++ network_name net ++ ": {" in
         let AddressesFile :=
           fold_left
             (fun AddressesFile address =>
                AddressesFile ++ nl ++ "      " ++ entryContractName address
                              ++ ": " ++ entryAddress address ++ ",")
             items AddressesFile in
         AddressesFile ++ nl ++ "    },")
    (net_entries networks) acc
  = acc ++ join (map spec_network_block (filter spec_network_listed (net_entries networks))).
Proof.
  rewrite (fold_left_blocks (fun entry => (length (snd entry) =? 0)%nat) spec_network_block).
  - rewrite (filter_ext _ spec_network_listed); [reflexivity|]. intros [n items].
    unfold spec_network_listed. cbn [fst snd]. now rewrite length_zero_nil.
  - intros a [n items]. cbn [fst snd]. destruct (length items =? 0)%nat; [reflexivity|].
    rewrite (fold_left_append spec_address_line). unfold spec_network_block. cbn [fst snd].
    now rewrite !append_assoc.
Qed.

Lemma AddressesFile_of_blocks (table : Obj.t Bucket Networks) :
  AddressesFile_of table = renderAddressRegistry table.
Proof.
  unfold AddressesFile_of, renderAddressRegistry, Obj.entries.
  rewrite (fold_left_blocks
             (fun entry => String.eqb (bucket_name (fst entry)) "ERROR"
                           || (length (onMAINNET (snd entry)) =? 0)%nat
                              && (length (onKOVAN (snd entry)) =? 0)%nat
                              && (length (onROPSTEN (snd entry)) =? 0)%nat)
             spec_protocol_block).
  - rewrite (filter_ext _ spec_protocol_listed); [now rewrite append_assoc|].
    intros [key nets].
    unfold spec_protocol_listed, spec_network_listed, net_entries. cbn [fst snd existsb].
    rewrite is_ERROR_name, !length_zero_nil.
    destruct (Bucket_eq_dec key ERROR), (onMAINNET nets), (onKOVAN nets), (onROPSTEN nets);
      reflexivity.
  - intros acc [key nets]. cbn [fst snd].
    destruct (String.eqb (bucket_name key) "ERROR"); [reflexivity|]. cbn [orb].
    destruct ((length (onMAINNET nets) =? 0)%nat && (length (onKOVAN nets) =? 0)%nat
              && (length (onROPSTEN nets) =? 0)%nat); [reflexivity|].
    rewrite network_blocks. unfold spec_protocol_block. cbn [fst snd].
    now rewrite !append_assoc.
Qed.

Lemma filter_none {A : Type} (f : A -> bool) (l : list A) :
  (forall a, In a l -> f a = false) -> filter f l = [].
Proof.
  induction l as [|a l IH]; simpl; intros H; [reflexivity|].
  rewrite (H a (or_introl eq_refl)). apply IH. intros b Hb. apply H. now right.
Qed.

Lemma registries_agree {host : Host} (w : World) :
  abis_text w = trim (join (map spec_abi_export (filter spec_abi_listed (abis w)))) /\
  addresses_text w = "export const Addresses = {"
    ++ join (map spec_protocol_block (filter spec_protocol_listed (addresses w)))
    ++ nl ++ "}".
Proof.
  split.
  - unfold abis_text. now rewrite ABIfile_of_blocks.
  - unfold addresses_text. rewrite AddressesFile_of_blocks.
    unfold renderAddressRegistry. apply trim_Addresses.
Qed.

(** C10: when no bucket holds an address record the address registry is
    still the text [export const Addresses = {], a line feed and the closing
    brace, which is not the empty string; when no bucket holds an ABI
    fragment the ABI registry is the empty string. *)
Theorem empty_tables_render {host : Host} (w : World) :
  (forall key nets, In (key, nets) (addresses w) -> nets = noAddresses) ->
  (forall key items, In (key, items) (abis w) -> items = []) ->
  addresses_text w = "export const Addresses = {" ++ nl ++ "}" /\
  addresses_text w <> EmptyString /\
  abis_text w = EmptyString.
Proof.
  intros Haddr Habi.
  destruct (registries_agree w) as [Ha Hd].
  assert (Hd' : addresses_text w = "export const Addresses = {" ++ nl ++ "}").
  { rewrite Hd. rewrite filter_none; [reflexivity|].
    intros [key nets] Hin. rewrite (Haddr key nets Hin).
    unfold spec_protocol_listed. cbn [snd]. apply andb_false_r. }
  split; [exact Hd'|]. split.
  - rewrite Hd'. discriminate.
  - rewrite Ha. rewrite filter_none; [reflexivity|].
    intros [key items] Hin. rewrite (Habi key items Hin).
    unfold spec_abi_listed. cbn [snd]. apply andb_false_r.
Qed.

Lemma empty_tables_render_witness :
  (forall key nets, In (key, nets) (addresses (@instance okHost tt)) -> nets = noAddresses) /\
  (forall key items, In (key, items) (abis (@instance okHost tt)) -> items = []) /\
  (addresses_text (@instance okHost tt) = "export const Addresses = {" ++ nl ++ "}" /\
   addresses_text (@instance okHost tt) <> EmptyString /\
   abis_text (@instance okHost tt) = EmptyString).
Proof.
  assert (H1 : forall key nets,
             In (key, nets) (addresses (@instance okHost tt)) -> nets = noAddresses).
  { vm_compute. intros key nets H.
    repeat (destruct H as [H|H]; [now inversion H|]). contradiction. }
  assert (H2 : forall key items, In (key, items) (abis (@instance okHost tt)) -> items = []).
  { vm_compute. intros key items H.
    repeat (destruct H as [H|H]; [now inversion H|]). contradiction. }
  split; [exact H1|]. split; [exact H2|].
  exact (@empty_tables_render okHost (@instance okHost tt) H1 H2).
Defined.

(** ** Steps and what they leave alone *)

Section Frames.
Context {host : Host}.

Lemma with_abis_same (w : World) : with_abis (abis w) w = w.
Proof. now destruct w. Qed.

Lemma call_makeDir_frame (path : string) (w : World) :
  madeDirs (fst (call_makeDir path w)) = madeDirs w /\
  addresses (fst (call_makeDir path w)) = addresses w /\
  abis (fst (call_makeDir path w)) = abis w /\
  trace (fst (call_makeDir path w)) = (trace w ++ [EvMakeDir path])%list.
Proof.
  unfold call_makeDir. destruct (makeDir path (disk w)) as [d r]. simpl. auto.
Qed.

Lemma call_makeFile_frame (path contents : string) (w : World) :
  madeDirs (fst (call_makeFile path contents w)) = madeDirs w /\
  addresses (fst (call_makeFile path contents w)) = addresses w /\
  abis (fst (call_makeFile path contents w)) = abis w /\
  trace (fst (call_makeFile path contents w)) = (trace w ++ [EvMakeFile path contents])%list.
Proof.
  unfold call_makeFile. destruct (makeFile path contents (disk w)) as [d r]. simpl. auto.
Qed.

Lemma makeDirs_frame (paths : list string) (w : World) :
  madeDirs (fst (makeDirs paths w)) = madeDirs w /\
  addresses (fst (makeDirs paths w)) = addresses w /\
  abis (fst (makeDirs paths w)) = abis w /\
  trace (fst (makeDirs paths w)) = (trace w ++ map EvMakeDir paths)%list.
Proof.
  revert w. induction paths as [|path rest IH]; intros w; cbn [makeDirs map].
  - cbn [fst]. now rewrite app_nil_r.
  - destruct (call_makeDir_frame path w) as (Hm & Ha & Hb & Ht).
    destruct (call_makeDir path w) as [w1 r1]. cbn [fst] in *.
    destruct (IH w1) as (Hm' & Ha' & Hb' & Ht').
    destruct (makeDirs rest w1) as [w2 r2]. cbn [fst] in *.
    rewrite Hm', Ha', Hb', Ht', Hm, Ha, Hb, Ht, <- app_assoc. auto.
Qed.

Lemma push_abis_frame (key : Bucket) (items : list IABIReturn) (w : World) :
  madeDirs (fst (push_abis key items w)) = madeDirs w /\
  addresses (fst (push_abis key items w)) = addresses w /\
  disk (fst (push_abis key items w)) = disk w /\
  trace (fst (push_abis key items w)) = trace w.
Proof.
  unfold push_abis. destruct (Obj.get Bucket_eq_dec key (abis w)); simpl; auto.
Qed.

Lemma push_address_frame (key : Bucket) (address : IAddressReturn) (w : World) :
  madeDirs (fst (push_address key address w)) = madeDirs w /\
  abis (fst (push_address key address w)) = abis w /\
  disk (fst (push_address key address w)) = disk w /\
  trace (fst (push_address key address w)) = trace w.
Proof.
  unfold push_address. destruct (Obj.get Bucket_eq_dec key (addresses w)); simpl; auto.
Qed.

Lemma push_addresses_frame (key : Bucket) (l : list IAddressReturn) (w : World) :
  madeDirs (fst (push_addresses key l w)) = madeDirs w /\
  abis (fst (push_addresses key l w)) = abis w /\
  disk (fst (push_addresses key l w)) = disk w /\
  trace (fst (push_addresses key l w)) = trace w.
Proof.
  revert w. induction l as [|address rest IH]; intros w; cbn [push_addresses]; [simpl; auto|].
  destruct (push_address_frame key address w) as (Hm & Hb & Hd & Ht).
  destruct (push_address key address w) as [w1 [e|]]; cbn [fst] in *; [auto|].
  destruct (IH w1) as (Hm' & Hb' & Hd' & Ht').
  rewrite Hm', Hb', Hd', Ht'. auto.
Qed.

(** The callback of [.then] touches nothing but the two arrays under its
    key. *)
Lemma fold_result_frame (key : Bucket) (val : IWriterReturn) (w : World) :
  madeDirs (fst (fold_result key val w)) = madeDirs w /\
  disk (fst (fold_result key val w)) = disk w /\
  trace (fst (fold_result key val w)) = trace w.
Proof.
  unfold fold_result.
  destruct (push_abis_frame key (ABIs val) w) as (Hm & _ & Hd & Ht).
  destruct (push_abis key (ABIs val) w) as [w1 [e|]]; cbn [fst] in *; [auto|].
  destruct (push_addresses_frame key (Addresses val) w1) as (Hm' & _ & Hd' & Ht').
  rewrite Hm', Hd', Ht'. auto.
Qed.

Lemma push_abis_other (key k : Bucket) (items : list IABIReturn) (w : World) :
  key <> k ->
  Obj.get Bucket_eq_dec k (abis (fst (push_abis key items w)))
  = Obj.get Bucket_eq_dec k (abis w).
Proof.
  intros Hne. unfold push_abis.
  destruct (Obj.get Bucket_eq_dec key (abis w)); simpl; [|reflexivity].
  now apply get_set_other.
Qed.

Lemma push_addresses_other (key k : Bucket) (l : list IAddressReturn) (w : World) :
  key <> k ->
  Obj.get Bucket_eq_dec k (addresses (fst (push_addresses key l w)))
  = Obj.get Bucket_eq_dec k (addresses w).
Proof.
  intros Hne. revert w.
  induction l as [|address rest IH]; intros w; cbn [push_addresses]; [reflexivity|].
  assert (H1 : Obj.get Bucket_eq_dec k (addresses (fst (push_address key address w)))
               = Obj.get Bucket_eq_dec k (addresses w)).
  { unfold push_address. destruct (Obj.get Bucket_eq_dec key (addresses w)); simpl;
      [now apply get_set_other | reflexivity]. }
  destruct (push_address key address w) as [w1 [e|]]; cbn [fst] in *; [exact H1|].
  now rewrite IH.
Qed.

Lemma fold_result_other (key k : Bucket) (val : IWriterReturn) (w : World) :
  key <> k ->
  Obj.get Bucket_eq_dec k (abis (fst (fold_result key val w)))
  = Obj.get Bucket_eq_dec k (abis w) /\
  Obj.get Bucket_eq_dec k (addresses (fst (fold_result key val w)))
  = Obj.get Bucket_eq_dec k (addresses w).
Proof.
  intros Hne. unfold fold_result.
  pose proof (push_abis_other key k (ABIs val) w Hne) as Hb.
  destruct (push_abis_frame key (ABIs val) w) as (_ & Ha & _ & _).
  destruct (push_abis key (ABIs val) w) as [w1 [e|]]; cbn [fst] in *.
  - now rewrite Ha.
  - destruct (push_addresses_frame key (Addresses val) w1) as (_ & Hb' & _ & _).
    rewrite Hb', (push_addresses_other key k (Addresses val) w1 Hne), Ha. auto.
Qed.

(** With nothing to push the callback changes nothing, provided the key is
    there. *)
Lemma fold_result_empty (key : Bucket) (w : World) :
  Obj.get Bucket_eq_dec key (abis w) <> None ->
  fold_result key emptyReturn w = (w, None).
Proof.
  intros Hkey. unfold fold_result, push_abis. cbn [ABIs Addresses emptyReturn].
  destruct (Obj.get Bucket_eq_dec key (abis w)) as [arr|] eqn:E; [|contradiction].
  rewrite app_nil_r, (set_same_value _ _ Bucket_eq_dec key arr (abis w) E), with_abis_same.
  reflexivity.
Qed.

(** Resuming a generator leaves the two accumulators alone. *)
Lemma resume_frame (dir solver : string) (net : NetChoice) (inv : Invocation) (w : World) :
  addresses (fst (resume dir solver net inv w)) = addresses w /\
  abis (fst (resume dir solver net inv w)) = abis w /\
  files_written (trace (fst (resume dir solver net inv w))) = files_written (trace w) /\
  errors_logged (trace (fst (resume dir solver net inv w))) = errors_logged (trace w).
Proof.
  destruct inv as [g ci|g ci|r]; cbn [resume].
  - destruct (makeDirs_frame (generatorDirs g dir) w) as (_ & Ha & Hb & Ht).
    destruct (makeDirs (generatorDirs g dir) w) as [w1 [e|]]; cbn [fst] in *;
      unfold with_madeDirs; cbn [addresses abis trace];
      rewrite Ha, Hb, Ht; unfold files_written, errors_logged;
      rewrite !flat_map_app; destruct g; simpl; rewrite !app_nil_r; auto.
  - destruct (writer g dir solver net ci (disk w)) as [d r]. simpl. auto.
  - simpl. auto.
Qed.
End Frames.

(** ** Routing (lines 116-117) *)

Section Routing.
Context {host : Host}.

Lemma protocols_key_sound (s : string) (b : Bucket) :
  protocols_key s = Some b -> s = bucket_name b.
Proof.
  unfold protocols_key. intros H. apply find_some in H. destruct H as [_ H].
  apply String.eqb_eq in H. now symmetry.
Qed.



Lemma route_unsupported (ci : IContractImport) :
  (forall p, toUpperCase (protocol ci) <> protocol_name p) -> route ci = ERROR.
Proof.
  intros H. unfold route.
  destruct (protocols_key (toUpperCase (protocol ci))) as [[p|]|] eqn:E; try reflexivity.
  apply protocols_key_sound in E. elim (H p E).
Qed.

End Routing.


(** ** The ERROR bucket *)

Section ErrorBucket.
Context {host : Host}.
Variables (solver dir : string) (net : NetChoice).

Lemma start_keeps_ERROR (ci : IContractImport) (w : World) :
  ERROR_bucket_empty w ->
  ERROR_bucket_empty (fst (start solver dir net ci w)) /\
  ERROR_task ci (snd (start solver dir net ci w)).
Proof.
  intros HP. unfold start.
  destruct (route ci) as [[]|] eqn:Hr; cbn [protocols];
    unfold suspending, noop, unsupported; try (destruct (negb _)); cbn [fst snd ERROR_task];
    rewrite Hr; (split; [exact HP | split; [reflexivity | intros; try discriminate; reflexivity]]).
Qed.

Lemma step_keeps_ERROR (ci : IContractImport) (t : Task) (w : World) :
  ERROR_bucket_empty w -> ERROR_task ci t ->
  ERROR_bucket_empty (fst (task_step solver dir net t w)) /\
  ERROR_task ci (snd (task_step solver dir net t w)).
Proof.
  intros HP HR. destruct t as [key inv|r]; [|split; assumption].
  destruct HR as [Hkey Hinv]. destruct key as [p|].
  - assert (Hp : Proto p <> ERROR) by discriminate.
    destruct inv as [g c|g c|[e|val]]; cbn [task_step].
    + destruct (resume_frame dir solver net (AwaitDirs g c) w) as (Ha & Hb & _).
      destruct (resume dir solver net (AwaitDirs g c) w) as [w1 inv1]. cbn [fst snd] in *.
      split; [unfold ERROR_bucket_empty; rewrite Ha, Hb; exact HP|].
      split; [assumption | intros; discriminate].
    + destruct (resume_frame dir solver net (AwaitWriter g c) w) as (Ha & Hb & _).
      destruct (resume dir solver net (AwaitWriter g c) w) as [w1 inv1]. cbn [fst snd] in *.
      split; [unfold ERROR_bucket_empty; rewrite Ha, Hb; exact HP|].
      split; [assumption | intros; discriminate].
    + cbn [fst snd ERROR_task]. split; [exact HP | intros; congruence].
    + destruct (fold_result_other (Proto p) ERROR val w Hp) as [Hb Ha].
      destruct (fold_result (Proto p) val w) as [w1 [e|]]; cbn [fst snd ERROR_task] in *;
        (split; [unfold ERROR_bucket_empty; rewrite Ha, Hb; exact HP | intros; congruence]).
  - rewrite (Hinv eq_refl). cbn [task_step].
    rewrite fold_result_empty by (destruct HP as [-> _]; discriminate).
    cbn [fst snd ERROR_task Pack emptyReturn]. split; [exact HP | reflexivity].
Qed.

Lemma makeDir_keeps_ERROR (path : string) (w : World) :
  ERROR_bucket_empty w -> ERROR_bucket_empty (fst (call_makeDir path w)).
Proof.
  intros HP. destruct (call_makeDir_frame path w) as (_ & Ha & Hb & _).
  unfold ERROR_bucket_empty. now rewrite Ha, Hb.
Qed.

Lemma makeFile_keeps_ERROR (path contents : string) (w : World) :
  ERROR_bucket_empty w -> ERROR_bucket_empty (fst (call_makeFile path contents w)).
Proof.
  intros HP. destruct (call_makeFile_frame path contents w) as (_ & Ha & Hb & _).
  unfold ERROR_bucket_empty. now rewrite Ha, Hb.
Qed.
End ErrorBucket.

Lemma instance_ERROR_empty {host : Host} (d : Disk) : ERROR_bucket_empty (instance d).
Proof.
  split; cbn [instance abis addresses]; unfold init_abis, init_addresses;
    apply get_set_same.
Qed.

Lemma reachable_ERROR_empty {host : Host} (w : World) :
  reachable w -> ERROR_bucket_empty w.
Proof.
  induction 1 as [d|w dir cis solver net schedule _ IH].
  - apply instance_ERROR_empty.
  - apply (main_keeps solver dir net ERROR_bucket_empty ERROR_task).
    + apply start_keeps_ERROR.
    + apply step_keeps_ERROR.
    + apply makeDir_keeps_ERROR.
    + apply makeFile_keeps_ERROR.
    + exact IH.
Qed.

Lemma Forall2_nth_error_l {A B : Type} (R : A -> B -> Prop) (la : list A) (lb : list B)
                          (i : nat) (a : A) :
  Forall2 R la lb -> nth_error la i = Some a ->
  exists b, nth_error lb i = Some b /\ R a b.
Proof.
  intros HF. revert i. induction HF as [|x y la lb Hxy _ IH]; intros i Hi.
  - destruct i; discriminate.
  - destruct i as [|j]; simpl in *; [injection Hi as ->; eauto | eauto].
Qed.

(** C6: in every world the singleton can be in, whatever was imported and in
    whatever order the generators were resumed, the array of ABI fragments
    under ERROR is empty and so is each of the three arrays of addresses
    under ERROR. *)
Theorem ERROR_bucket_stays_empty {host : Host} (w : World) :
  reachable w ->
  Obj.get Bucket_eq_dec ERROR (abis w) = Some [] /\
  exists nets, Obj.get Bucket_eq_dec ERROR (addresses w) = Some nets /\
               forall n, net_get n nets = [].
Proof.
  intros Hw. destruct (reachable_ERROR_empty w Hw) as [Hb Ha].
  split; [exact Hb|]. exists noAddresses. split; [exact Ha|]. now intros [].
Qed.

Lemma ERROR_bucket_stays_empty_witness :
  reachable (fst (@main okHost "." ["made_up"; "bancor"; "error"] "0.8.0" all
                        [0; 1; 2; 1; 0; 1; 2] (@instance okHost tt))) /\
  (Obj.get Bucket_eq_dec ERROR
     (abis (fst (@main okHost "." ["made_up"; "bancor"; "error"] "0.8.0" all
                       [0; 1; 2; 1; 0; 1; 2] (@instance okHost tt)))) = Some [] /\
   exists nets,
     Obj.get Bucket_eq_dec ERROR
       (addresses (fst (@main okHost "." ["made_up"; "bancor"; "error"] "0.8.0" all
                              [0; 1; 2; 1; 0; 1; 2] (@instance okHost tt)))) = Some nets /\
     forall n, net_get n nets = []).
Proof.
  assert (Hw : reachable (fst (@main okHost "." ["made_up"; "bancor"; "error"] "0.8.0" all
                                     [0; 1; 2; 1; 0; 1; 2] (@instance okHost tt))))
    by (apply reach_main, reach_instance).
  split; [exact Hw|].
  exact (@ERROR_bucket_stays_empty okHost _ Hw).
Defined.

(** C3: an import whose identifier, upper-cased, is not the name of a
    supported protocol is routed to ERROR; the generator started for it is
    the ERROR generator, which logs the identifier and returns a promise
    already resolved with no ABI, no address and the empty package string;
    the callback of [.then] then changes nothing in a reachable world and
    resolves with the empty string.  Hence in a batch, under every schedule,
    the element of such an import is never rejected. *)
Theorem unsupported_identifier_reaches_ERROR {host : Host}
        (solver dir : string) (net : NetChoice) (ci : IContractImport) :
  (forall p, toUpperCase (protocol ci) <> protocol_name p) ->
  route ci = ERROR /\
  (forall w, start solver dir net ci w
             = (emit (EvLogError (protocol ci)) w, Running ERROR (Returned (inr emptyReturn)))) /\
  (forall w, reachable w ->
             task_step solver dir net (Running ERROR (Returned (inr emptyReturn))) w
             = (w, Settled (inr EmptyString))) /\
  (forall w cis schedule i,
      reachable w -> nth_error cis i = Some ci ->
      exists t,
        nth_error (tasks (snd (work solver cis dir net schedule (fst (makeBaseDirs dir w))))) i
        = Some t /\
        (t = Running ERROR (Returned (inr emptyReturn)) \/ t = Settled (inr EmptyString))).
Proof.
  intros Hun. pose proof (route_unsupported ci Hun) as Hr.
  split; [exact Hr|]. split; [|split].
  - intros w. unfold start. rewrite Hr. reflexivity.
  - intros w Hw. cbn [task_step].
    rewrite fold_result_empty; [reflexivity|].
    destruct (reachable_ERROR_empty w Hw) as [-> _]. discriminate.
  - intros w cis schedule i Hw Hi.
    assert (HP : ERROR_bucket_empty (fst (makeBaseDirs dir w))).
    { apply (makeDirs_keeps ERROR_bucket_empty makeDir_keeps_ERROR).
      now apply reachable_ERROR_empty. }
    destruct (work_keeps solver dir net ERROR_bucket_empty ERROR_task
                (start_keeps_ERROR solver dir net) (step_keeps_ERROR solver dir net)
                cis schedule _ HP) as [_ HF].
    destruct (Forall2_nth_error_l _ _ _ i ci HF Hi) as (t & Ht & HR).
    exists t. split; [exact Ht|].
    destruct t as [key inv|r]; cbn [ERROR_task] in HR.
    + destruct HR as [Hkey Hinv]. rewrite Hr in Hkey. subst key.
      left. now rewrite (Hinv eq_refl).
    + right. now rewrite (HR Hr).
Qed.

Lemma unsupported_identifier_reaches_ERROR_witness :
  (forall p, @toUpperCase okHost (@protocol okHost "made_up") <> protocol_name p) /\
  (@route okHost "made_up" = ERROR /\
   (forall w, @start okHost "0.8.0" "." all "made_up" w
              = (emit (EvLogError "made_up") w, Running ERROR (Returned (inr emptyReturn)))) /\
   (forall w, reachable w ->
              @task_step okHost "0.8.0" "." all (Running ERROR (Returned (inr emptyReturn))) w
              = (w, Settled (inr EmptyString))) /\
   (forall w cis schedule i,
       reachable w -> nth_error cis i = Some "made_up" ->
       exists t,
         nth_error (tasks (snd (@work okHost "0.8.0" cis "." all schedule
                                      (fst (makeBaseDirs "." w))))) i = Some t /\
         (t = Running ERROR (Returned (inr emptyReturn)) \/ t = Settled (inr EmptyString)))).
Proof.
  assert (H : forall p, @toUpperCase okHost (@protocol okHost "made_up") <> protocol_name p)
    by (intros []; vm_compute; discriminate).
  split; [exact H|].
  exact (@unsupported_identifier_reaches_ERROR okHost "0.8.0" "." all "made_up" H).
Defined.

(** ** The array of promises *)

Section PoolFacts.
Context {host : Host}.
Variables (solver dir : string) (net : NetChoice).

Lemma nth_error_set_nth_same (l : list Task) (i : nat) (t t1 : Task) :
  nth_error l i = Some t -> nth_error (set_nth i t1 l) i = Some t1.
Proof.
  revert i. induction l as [|x l IH]; intros [|j] H; simpl in *; try discriminate; auto.
Qed.

Lemma nth_error_set_nth_other (l : list Task) (i j : nat) (t1 : Task) :
  i <> j -> nth_error (set_nth i t1 l) j = nth_error l j.
Proof.
  revert i j. induction l as [|x l IH]; intros [|i] [|j] H; simpl; auto; congruence.
Qed.

Lemma in_set_nth (l : list Task) (i : nat) (t1 x : Task) :
  In x (set_nth i t1 l) -> x = t1 \/ In x l.
Proof.
  revert i. induction l as [|y l IH]; intros [|i]; simpl; try tauto.
  - intros [H|H]; auto.
  - intros [H|H]; [tauto|]. destruct (IH i H); tauto.
Qed.

Lemma in_set_nth_kept (l : list Task) (i : nat) (t t1 x : Task) :
  In x l -> nth_error l i = Some t -> (t = x -> t1 = x) -> In x (set_nth i t1 l).
Proof.
  revert i. induction l as [|y l IH]; intros [|i] Hin Hi Hk; simpl in *; try tauto.
  - injection Hi as ->. destruct Hin as [->|Hin]; [left; now apply Hk | now right].
  - destruct Hin as [->|Hin]; [now left | right; eauto].
Qed.

Lemma in_set_nth_new (l : list Task) (i : nat) (t t1 : Task) :
  nth_error l i = Some t -> In t1 (set_nth i t1 l).
Proof.
  revert i. induction l as [|y l IH]; intros [|i] Hi; simpl in *; try discriminate; eauto.
Qed.

Lemma task_step_settled (r : JsError + string) (w : World) :
  task_step solver dir net (Settled r) w = (w, Settled r).
Proof. reflexivity. Qed.

Lemma pool_step_rejection (i : nat) (w : World) (pool : Pool) :
  rejection_recorded pool ->
  rejection_recorded (snd (pool_step solver dir net i (w, pool))).
Proof.
  intros Hok. unfold pool_step.
  destruct (nth_error (tasks pool) i) as [t|] eqn:Hi; [|exact Hok].
  destruct (task_step solver dir net t w) as [w1 t1] eqn:Hstep.
  unfold rejection_recorded in *. cbn [snd tasks rejection].
  destruct (rejection pool) as [e|]; cbn [first_rejection].
  - eapply in_set_nth_kept; eauto.
    intros ->. rewrite task_step_settled in Hstep. congruence.
  - destruct t1 as [key inv|[e|v]]; cbn [rejected_with].
    + intros e Hin. apply in_set_nth in Hin. destruct Hin as [Hin|Hin]; [discriminate|].
      exact (Hok e Hin).
    + eapply in_set_nth_new; eauto.
    + intros e Hin. apply in_set_nth in Hin. destruct Hin as [Hin|Hin]; [discriminate|].
      exact (Hok e Hin).
Qed.

Lemma run_schedule_rejection (schedule : list nat) (w : World) (pool : Pool) :
  rejection_recorded pool ->
  rejection_recorded (snd (run_schedule solver dir net schedule (w, pool))).
Proof.
  unfold run_schedule. revert w pool.
  induction schedule as [|i rest IH]; cbn [fold_left]; intros w pool Hok; [exact Hok|].
  pose proof (pool_step_rejection i w pool Hok) as H1.
  destruct (pool_step solver dir net i (w, pool)) as [w1 pool1]. now apply IH.
Qed.

Lemma start_all_running (cis : list IContractImport) (w : World) :
  forall r, ~ In (Settled r) (snd (start_all solver dir net cis w)).
Proof.
  revert w. induction cis as [|ci rest IH]; intros w r; cbn [start_all]; [simpl; tauto|].
  unfold start at 1.
  destruct (protocols (route ci) dir solver net ci w) as [w1 inv].
  pose proof (IH w1 r) as H1.
  destruct (start_all solver dir net rest w1) as [w2 ts]. cbn [snd] in *.
  intros [H|H]; [discriminate | exact (H1 H)].
Qed.

Lemma work_rejection (cis : list IContractImport) (schedule : list nat) (w : World) :
  rejection_recorded (snd (work solver cis dir net schedule w)).
Proof.
  unfold work. pose proof (start_all_running cis w) as Hrun.
  destruct (start_all solver dir net cis w) as [w1 ts]. cbn [snd] in Hrun.
  apply run_schedule_rejection. unfold rejection_recorded. cbn [rejection tasks].
  intros e. apply Hrun.
Qed.

Lemma all_resolved_map (ts : list Task) (vals : list string) :
  all_resolved ts = Some vals -> ts = map (fun v => Settled (inr v)) vals.
Proof.
  revert vals. induction ts as [|t ts IH]; intros vals; cbn [all_resolved].
  - intros [= <-]. reflexivity.
  - destruct t as [key inv|[e|v]]; try discriminate.
    destruct (all_resolved ts) as [vs|]; [|discriminate].
    intros [= <-]. cbn [map]. now rewrite (IH vs eq_refl).
Qed.

Lemma all_resolved_settled (ts : list Task) :
  (forall t, In t ts -> rank t = 0) ->
  (forall e, ~ In (Settled (inl e)) ts) ->
  exists vals, all_resolved ts = Some vals.
Proof.
  induction ts as [|t ts IH]; intros Hrank Hrej; cbn [all_resolved]; [eauto|].
  destruct IH as [vs Hvs].
  - intros t' Ht'. apply Hrank. now right.
  - intros e He. apply (Hrej e). now right.
  - destruct t as [key inv|[e|v]].
    + specialize (Hrank _ (or_introl eq_refl)). destruct inv; discriminate.
    + elim (Hrej e). now left.
    + rewrite Hvs. eauto.
Qed.

(** *** Progress *)

Lemma task_step_rank (t : Task) (w : World) :
  rank (snd (task_step solver dir net t w)) <= rank t - 1.
Proof.
  destruct t as [key [g c|g c|[e|val]]|r]; cbn [task_step].
  - cbn [resume]. destruct (makeDirs (generatorDirs g dir) w) as [w1 [e|]]; cbn; lia.
  - cbn [resume]. destruct (writer g dir solver net c (disk w)) as [d r]; cbn; lia.
  - cbn; lia.
  - destruct (fold_result key val w) as [w1 [e|]]; cbn; lia.
  - cbn; lia.
Qed.

Lemma pool_step_rank (i j : nat) (w : World) (pool : Pool) (t' : Task) :
  nth_error (tasks (snd (pool_step solver dir net i (w, pool)))) j = Some t' ->
  exists t, nth_error (tasks pool) j = Some t /\
            rank t' <= rank t - (if Nat.eq_dec i j then 1 else 0).
Proof.
  unfold pool_step.
  destruct (nth_error (tasks pool) i) as [t|] eqn:Hi.
  - pose proof (task_step_rank t w) as Hrank.
    destruct (task_step solver dir net t w) as [w1 t1]. cbn [snd tasks] in *.
    destruct (Nat.eq_dec i j) as [<-|Hne].
    + rewrite (nth_error_set_nth_same _ _ t t1 Hi). intros [= <-]. eauto.
    + rewrite (nth_error_set_nth_other _ _ _ t1 Hne). intros H. exists t'. split; [exact H|lia].
  - cbn [snd]. intros H. exists t'. split; [exact H|].
    destruct (Nat.eq_dec i j) as [<-|Hne]; [congruence | lia].
Qed.

Lemma run_schedule_rank (schedule : list nat) (j : nat) (w : World) (pool : Pool) (t' : Task) :
  nth_error (tasks (snd (run_schedule solver dir net schedule (w, pool)))) j = Some t' ->
  exists t, nth_error (tasks pool) j = Some t /\
            rank t' <= rank t - count_occ Nat.eq_dec schedule j.
Proof.
  unfold run_schedule. revert w pool.
  induction schedule as [|i rest IH]; cbn [fold_left count_occ]; intros w pool H.
  - exists t'. split; [exact H | lia].
  - destruct (pool_step solver dir net i (w, pool)) as [w1 pool1] eqn:Hstep.
    destruct (IH w1 pool1 H) as (t1 & Ht1 & Hr1).
    pose proof (pool_step_rank i j w pool t1) as Hps. rewrite Hstep in Hps.
    destruct (Hps Ht1) as (t & Ht & Hr).
    exists t. split; [exact Ht|].
    destruct (Nat.eq_dec i j); lia.
Qed.

Lemma rank_le_3 (t : Task) : rank t <= 3.
Proof. destruct t as [key [| |]|]; cbn; lia. Qed.

Lemma pool_step_length (i : nat) (w : World) (pool : Pool) :
  length (tasks (snd (pool_step solver dir net i (w, pool)))) = length (tasks pool).
Proof.
  unfold pool_step. destruct (nth_error (tasks pool) i) as [t|]; [|reflexivity].
  destruct (task_step solver dir net t w) as [w1 t1]. cbn [snd tasks].
  generalize (tasks pool) as l. clear. intros l. revert i.
  induction l as [|x l IH]; intros [|i]; simpl; auto.
Qed.

Lemma run_schedule_length (schedule : list nat) (w : World) (pool : Pool) :
  length (tasks (snd (run_schedule solver dir net schedule (w, pool)))) = length (tasks pool).
Proof.
  unfold run_schedule. revert w pool.
  induction schedule as [|i rest IH]; cbn [fold_left]; intros w pool; [reflexivity|].
  pose proof (pool_step_length i w pool) as H1.
  destruct (pool_step solver dir net i (w, pool)) as [w1 pool1]. cbn [snd] in H1.
  now rewrite IH.
Qed.

Lemma start_all_length (cis : list IContractImport) (w : World) :
  length (snd (start_all solver dir net cis w)) = length cis.
Proof.
  revert w. induction cis as [|ci rest IH]; intros w; cbn [start_all]; [reflexivity|].
  destruct (start solver dir net ci w) as [w1 t].
  pose proof (IH w1) as H1.
  destruct (start_all solver dir net rest w1) as [w2 ts]. cbn [snd length] in *. lia.
Qed.

(** Under a fair schedule every element is settled. *)
Lemma work_settles (cis : list IContractImport) (schedule : list nat) (w : World) :
  fair (length cis) schedule ->
  forall t, In t (tasks (snd (work solver cis dir net schedule w))) -> rank t = 0.
Proof.
  intros Hfair t Hin. apply In_nth_error in Hin. destruct Hin as [j Hj].
  assert (Hlen : j < length cis).
  { assert (Hj' : nth_error (tasks (snd (work solver cis dir net schedule w))) j <> None)
      by congruence.
    apply nth_error_Some in Hj'. unfold work in Hj'.
    pose proof (start_all_length cis w) as Hl.
    destruct (start_all solver dir net cis w) as [w1 ts].
    rewrite run_schedule_length in Hj'. cbn [tasks snd] in *. lia. }
  unfold work in Hj. destruct (start_all solver dir net cis w) as [w1 ts].
  destruct (run_schedule_rank schedule j w1 _ t Hj) as (t0 & _ & Hr).
  pose proof (rank_le_3 t0). pose proof (Hfair j Hlen). lia.
Qed.
End PoolFacts.

(** ** What [#work] resolves to *)

Section Packs.
Context {host : Host}.
Variables (solver dir : string) (net : NetChoice).

Lemma start_keeps_provenance (ci : IContractImport) (w : World) :
  True -> True /\ provenance dir solver net ci (snd (start solver dir net ci w)).
Proof.
  intros _. split; [exact I|]. unfold start.
  destruct (route ci) as [[]|] eqn:Hr; cbn [protocols];
    unfold suspending, noop, unsupported; try (destruct (negb _));
    cbn [fst snd provenance flag may_return]; rewrite ?Hr; auto.
Qed.

Lemma step_keeps_provenance (ci : IContractImport) (t : Task) (w : World) :
  True -> provenance dir solver net ci t ->
  True /\ provenance dir solver net ci (snd (task_step solver dir net t w)).
Proof.
  intros _ HR. split; [exact I|].
  destruct t as [key [g c|g c|[e|val]]|r]; cbn [task_step provenance] in *.
  - destruct HR as (Hk & Hc & Hg). cbn [resume].
    destruct (makeDirs (generatorDirs g dir) w) as [w1 [e|]]; cbn [snd provenance]; auto.
  - destruct HR as (Hk & Hc & Hg). cbn [resume].
    destruct (writer g dir solver net c (disk w)) as [d [e|val]] eqn:Hw;
      cbn [snd provenance]; [exact I|].
    split; [exact Hk|]. rewrite Hg. subst c.
    destruct g; cbn [flag may_return writer] in *; exists (disk w); now rewrite Hw.
  - exact I.
  - destruct HR as (Hk & Hval).
    destruct (fold_result key val w) as [w1 [e|]]; cbn [snd provenance]; [exact I|].
    exists val. split; [now rewrite <- Hk | reflexivity].
  - exact HR.
Qed.

Lemma Forall2_map_settled (R : IContractImport -> Task -> Prop)
                          (cis : list IContractImport) (vals : list string) :
  Forall2 R cis (map (fun v => Settled (inr v)) vals) ->
  Forall2 (fun ci v => R ci (Settled (inr v))) cis vals.
Proof.
  revert cis. induction vals as [|v vals IH]; intros cis H; inversion H; subst;
    constructor; auto.
Qed.

(** Whenever [Promise.all] is resolved, under whatever schedule, the array it
    resolves to holds for each import, in order, a string its generator
    returned as [Pack]. *)
Lemma work_packs (cis : list IContractImport) (schedule : list nat) (w : World)
                 (val : list string) :
  Promise_all (snd (work solver cis dir net schedule w)) = Resolved val ->
  Forall2 (pack_of dir solver net) cis val.
Proof.
  intros H.
  destruct (work_keeps solver dir net (fun _ => True) (provenance dir solver net)
              start_keeps_provenance step_keeps_provenance cis schedule w I) as [_ HF].
  unfold Promise_all in H.
  destruct (rejection (snd (work solver cis dir net schedule w))); [discriminate|].
  destruct (all_resolved (tasks (snd (work solver cis dir net schedule w)))) as [vs|] eqn:E;
    [|discriminate].
  injection H as ->. apply all_resolved_map in E. rewrite E in HF.
  exact (Forall2_map_settled _ _ _ HF).
Qed.

(** Under a fair schedule [Promise.all] is resolved unless an element was
    rejected. *)
Lemma work_resolves (cis : list IContractImport) (schedule : list nat) (w : World) :
  fair (length cis) schedule ->
  (forall e, ~ In (Settled (inl e)) (tasks (snd (work solver cis dir net schedule w)))) ->
  exists val, Promise_all (snd (work solver cis dir net schedule w)) = Resolved val.
Proof.
  intros Hfair Hrej. unfold Promise_all.
  pose proof (work_rejection solver dir net cis schedule w) as Hrec.
  unfold rejection_recorded in Hrec.
  destruct (rejection (snd (work solver cis dir net schedule w))) as [e|];
    [elim (Hrej e Hrec)|].
  destruct (all_resolved_settled _ (work_settles solver dir net cis schedule w Hfair) Hrej)
    as [vals ->].
  eauto.
Qed.

(** A generator without a writer contributes the empty string. *)
Lemma pack_of_no_writer (ci : IContractImport) (pack : string) :
  (forall g, route ci <> Proto (flag g)) ->
  pack_of dir solver net ci pack -> pack = EmptyString.
Proof.
  intros Hno (val & Hval & ->). unfold may_return in Hval.
  destruct (route ci) as [[]|];
    try (now rewrite Hval);
    [elim (Hno viaBancor eq_refl) | elim (Hno viaDyDx eq_refl)].
Qed.
End Packs.

Lemma round_robin_fair (n : nat) : fair n (round_robin n).
Proof.
  intros i Hi. unfold round_robin. rewrite !count_occ_app.
  assert (H : count_occ Nat.eq_dec (seq 0 n) i = 1).
  { assert (Hnd : NoDup (seq 0 n)) by apply seq_NoDup.
    rewrite (NoDup_count_occ Nat.eq_dec) in Hnd. specialize (Hnd i).
    assert (Hin : In i (seq 0 n)) by (apply in_seq; lia).
    apply (count_occ_In Nat.eq_dec) in Hin. lia. }
  lia.
Qed.

(** C1, as the code has it: [#work] resolves to one string per import, in the
    order of the imports, and that string is the [Pack] its generator
    returned, empty or not.  Nothing is filtered: an import whose generator
    has no writer (KYBER, ONEINCH, UNISWAP, ERROR) contributes the empty
    string.  Under a fair schedule the promise is resolved unless an element
    was rejected. *)
Theorem work_resolves_to_every_pack {host : Host}
        (solver : string) (cis : list IContractImport) (dir : string) (net : NetChoice)
        (schedule : list nat) (w : World) :
  (fair (length cis) schedule ->
   (forall e, ~ In (Settled (inl e)) (tasks (snd (work solver cis dir net schedule w)))) ->
   exists val, Promise_all (snd (work solver cis dir net schedule w)) = Resolved val) /\
  (forall val,
      Promise_all (snd (work solver cis dir net schedule w)) = Resolved val ->
      Forall2 (pack_of dir solver net) cis val /\
      length val = length cis /\
      (forall i ci, nth_error cis i = Some ci ->
                    (forall g, route ci <> Proto (flag g)) ->
                    nth_error val i = Some EmptyString)).
Proof.
  split; [apply work_resolves|].
  intros val H. pose proof (work_packs solver dir net cis schedule w val H) as HF.
  split; [exact HF|]. split; [symmetry; exact (Forall2_length HF)|].
  intros i ci Hi Hno.
  destruct (Forall2_nth_error_l _ _ _ i ci HF Hi) as (pack & Hp & Hpack).
  now rewrite Hp, (pack_of_no_writer solver dir net ci pack Hno Hpack).
Qed.

Lemma work_resolves_to_every_pack_witness :
  fair (length ["kyber"; "bancor"]) (round_robin 2) /\
  (forall e, ~ In (Settled (inl e))
               (tasks (snd (@work okHost "0.8.0" ["kyber"; "bancor"] "." all (round_robin 2)
                                  (@instance okHost tt))))) /\
  (exists val, Promise_all (snd (@work okHost "0.8.0" ["kyber"; "bancor"] "." all
                                       (round_robin 2) (@instance okHost tt)))
               = Resolved val) /\
  Forall2 (@pack_of okHost "." "0.8.0" all) ["kyber"; "bancor"]
          [EmptyString; "@bancor/contracts-solidity"] /\
  nth_error [EmptyString; "@bancor/contracts-solidity"] 0 = Some EmptyString.
Proof.
  pose proof (@work_resolves_to_every_pack okHost "0.8.0" ["kyber"; "bancor"] "." all
                (round_robin 2) (@instance okHost tt)) as [Hprogress Hresult].
  assert (Hfair : fair (length ["kyber"; "bancor"]) (round_robin 2))
    by (intros [|[|i]] Hi; vm_compute; simpl in Hi; lia).
  assert (Hnone : forall e, ~ In (Settled (inl e))
             (tasks (snd (@work okHost "0.8.0" ["kyber"; "bancor"] "." all (round_robin 2)
                                (@instance okHost tt)))))
    by (vm_compute; intros e [H|[H|[]]]; discriminate).
  split; [exact Hfair|]. split; [exact Hnone|]. split; [exact (Hprogress Hfair Hnone)|].
  destruct (Hresult [EmptyString; "@bancor/contracts-solidity"] eq_refl) as (HF & _ & Hnth).
  split; [exact HF|].
  apply (Hnth 0 "kyber" eq_refl). intros []; vm_compute; discriminate.
Defined.

(** C1 as worded fails: a batch of one KYBER import resolves to an array of
    one element, the empty string. *)
Lemma work_resolves_with_an_empty_pack :
  Promise_all (snd (@work okHost "0.8.0" ["kyber"] "." all [0] (@instance okHost tt)))
  = Resolved [EmptyString] /\
  ~ Forall (fun pack => pack <> EmptyString) [EmptyString].
Proof.
  split; [reflexivity|].
  intros H. inversion H as [|? ? Hhead _]. now apply Hhead.
Qed.

(** ** Files and directories of a run *)

Section Files.
Context {host : Host}.
Variables (solver dir : string) (net : NetChoice).

Lemma start_frame (ci : IContractImport) (w : World) :
  madeDirs (fst (start solver dir net ci w)) = madeDirs w /\
  addresses (fst (start solver dir net ci w)) = addresses w /\
  abis (fst (start solver dir net ci w)) = abis w /\
  files_written (trace (fst (start solver dir net ci w))) = files_written (trace w) /\
  dirs_made (trace (fst (start solver dir net ci w))) = dirs_made (trace w).
Proof.
  unfold start.
  destruct (route ci) as [[]|]; cbn [protocols]; unfold suspending, noop, unsupported;
    try (destruct (negb _)); cbn [fst emit madeDirs addresses abis trace]; auto.
  unfold files_written, dirs_made. rewrite !flat_map_app. simpl. rewrite !app_nil_r. auto.
Qed.

Lemma task_step_files (t : Task) (w : World) :
  files_written (trace (fst (task_step solver dir net t w))) = files_written (trace w).
Proof.
  destruct t as [key [g c|g c|[e|val]]|r]; cbn [task_step].
  - destruct (resume_frame dir solver net (AwaitDirs g c) w) as (_ & _ & Hf & _).
    destruct (resume dir solver net (AwaitDirs g c) w) as [w1 inv1]. exact Hf.
  - destruct (resume_frame dir solver net (AwaitWriter g c) w) as (_ & _ & Hf & _).
    destruct (resume dir solver net (AwaitWriter g c) w) as [w1 inv1]. exact Hf.
  - reflexivity.
  - destruct (fold_result_frame key val w) as (_ & _ & Ht).
    destruct (fold_result key val w) as [w1 [e|]]; cbn [fst] in *; now rewrite Ht.
  - reflexivity.
Qed.

(** [#work] writes no file, whatever the schedule. *)
Lemma work_files (cis : list IContractImport) (schedule : list nat) (w : World) :
  files_written (trace (fst (work solver cis dir net schedule w))) = files_written (trace w).
Proof.
  apply (work_keeps solver dir net
           (fun w' => files_written (trace w') = files_written (trace w))
           (fun _ _ => True)); [| |reflexivity].
  - intros ci w' H. split; [|exact I].
    destruct (start_frame ci w') as (_ & _ & _ & Hf & _). now rewrite Hf.
  - intros ci t w' H _. split; [|exact I]. now rewrite task_step_files.
Qed.

Lemma files_written_dirs (paths : list string) : files_written (map EvMakeDir paths) = [].
Proof. induction paths as [|path rest IH]; [reflexivity | exact IH]. Qed.

Lemma makeDirs_files (paths : list string) (w : World) :
  files_written (trace (fst (makeDirs paths w))) = files_written (trace w).
Proof.
  destruct (makeDirs_frame paths w) as (_ & _ & _ & Ht). rewrite Ht.
  unfold files_written. rewrite flat_map_app.
  fold (files_written (map EvMakeDir paths)).
  now rewrite files_written_dirs, app_nil_r.
Qed.


Lemma main_resolved_inv (cis : list IContractImport) (schedule : list nat)
                        (w : World) (l : list string) :
  snd (main dir cis solver net schedule w) = Resolved l ->
  exists val,
    Promise_all (snd (work solver cis dir net schedule (fst (makeBaseDirs dir w))))
    = Resolved val /\ l = new_Set val.
Proof.
  unfold main. destruct (makeBaseDirs dir w) as [w1 [e|]]; cbn [fst snd]; [discriminate|].
  destruct (work solver cis dir net schedule w1) as [w2 pool]. cbn [fst snd].
  destruct (Promise_all pool) as [|val|e]; cbn [snd]; try discriminate.
  destruct (buildFiles dir w2) as [w3 [e|]]; cbn [snd]; [discriminate|].
  intros [= <-]. eauto.
Qed.

Lemma main_resolves (cis : list IContractImport) (schedule : list nat)
                    (w : World) (val : list string) :
  snd (makeBaseDirs dir w) = None ->
  Promise_all (snd (work solver cis dir net schedule (fst (makeBaseDirs dir w))))
  = Resolved val ->
  snd (buildFiles dir (fst (work solver cis dir net schedule (fst (makeBaseDirs dir w)))))
  = None ->
  snd (main dir cis solver net schedule w) = Resolved (new_Set val).
Proof.
  intros Hbase Hall Hbuild. unfold main.
  destruct (makeBaseDirs dir w) as [w1 r]. cbn [fst snd] in *. subst r.
  destruct (work solver cis dir net schedule w1) as [w2 pool]. cbn [fst snd] in *.
  rewrite Hall. destruct (buildFiles dir w2) as [w3 r3]. cbn [snd] in *. now subst r3.
Qed.
End Files.

(** ** Rejection *)

Section Rejection.
Context {host : Host}.
Variables (solver dir : string) (net : NetChoice).



End Rejection.

Section GeneratorRejection.
Context {host : Host}.
Variables (solver dir : string) (net : NetChoice).

(** The rejection of [Promise.all] over [makeDir] calls is the rejection of
    one of the calls. *)
Lemma makeDirs_rejection_of_a_call (paths : list string) (w : World) (e : JsError) :
  snd (makeDirs paths w) = Some e ->
  exists path d, In path paths /\ snd (makeDir path d) = Some e.
Proof.
  revert w. induction paths as [|path rest IH]; intros w; cbn [makeDirs]; [discriminate|].
  unfold call_makeDir at 1.
  destruct (makeDir path (disk w)) as [d r] eqn:Hmk.
  destruct (makeDirs rest _) as [w2 r2] eqn:Hrest. cbn [snd].
  destruct r as [e1|]; cbn [first_rejection].
  - intros [= ->]. exists path, (disk w). split; [now left | now rewrite Hmk].
  - intros ->. destruct (IH _ (f_equal snd Hrest)) as (p & d' & Hp & Hd).
    exists p, d'. split; [now right | exact Hd].
Qed.






End GeneratorRejection.



(** C5: the array [main] resolves to has no duplicates; it holds exactly the
    strings of the array [#work] resolved to (one [Pack] per import), each
    once.  So a package returned for two imports of the run is listed once.
    [main] does resolve when the directories are made, the schedule is fair,
    no invocation is rejected and both files are written. *)
Theorem main_lists_each_pack_once {host : Host}
        (dir : string) (cis : list IContractImport) (solver : string) (net : NetChoice)
        (schedule : list nat) (w : World) :
  (snd (makeBaseDirs dir w) = None ->
   fair (length cis) schedule ->
   (forall e, ~ In (Settled (inl e))
                (tasks (snd (work solver cis dir net schedule (fst (makeBaseDirs dir w)))))) ->
   snd (buildFiles dir (fst (work solver cis dir net schedule (fst (makeBaseDirs dir w)))))
   = None ->
   exists l, snd (main dir cis solver net schedule w) = Resolved l) /\
  (forall l,
      snd (main dir cis solver net schedule w) = Resolved l ->
      NoDup l /\
      exists val,
        Forall2 (pack_of dir solver net) cis val /\
        (forall pack, In pack l <-> In pack val) /\
        (forall pack, In pack val -> count_occ string_dec l pack = 1) /\
        (forall i j pack, i <> j -> nth_error val i = Some pack -> nth_error val j = Some pack ->
                          count_occ string_dec l pack = 1)).
Proof.
  split.
  - intros Hbase Hfair Hnone Hbuild.
    destruct (work_resolves solver dir net cis schedule _ Hfair Hnone) as [val Hval].
    exists (new_Set val). now apply main_resolves.
  - intros l Hl.
    destruct (main_resolved_inv solver dir net cis schedule w l Hl) as (val & Hval & ->).
    split; [apply new_Set_NoDup|]. exists val.
    split; [exact (work_packs solver dir net cis schedule _ val Hval)|].
    split; [intros pack; apply new_Set_in|].
    split; [intros pack; apply new_Set_once|].
    intros i j pack _ Hi _. apply new_Set_once. exact (nth_error_In _ _ Hi).
Qed.

Lemma main_lists_each_pack_once_witness :
  snd (@makeBaseDirs okHost "." (@instance okHost tt)) = None /\
  fair (length ["bancor"; "kyber"; "BANCOR"]) (round_robin 3) /\
  snd (@main okHost "." ["bancor"; "kyber"; "BANCOR"] "0.8.0" all (round_robin 3)
             (@instance okHost tt))
  = Resolved ["@bancor/contracts-solidity"; EmptyString] /\
  NoDup ["@bancor/contracts-solidity"; EmptyString] /\
  count_occ string_dec ["@bancor/contracts-solidity"; EmptyString]
            "@bancor/contracts-solidity" = 1.
Proof.
  destruct (@main_lists_each_pack_once okHost "." ["bancor"; "kyber"; "BANCOR"] "0.8.0" all
              (round_robin 3) (@instance okHost tt)) as [_ Hresult].
  destruct (Hresult ["@bancor/contracts-solidity"; EmptyString] eq_refl)
    as (Hnd & val & _ & Hin & Honce & _).
  split; [reflexivity|]. split; [apply round_robin_fair|]. split; [reflexivity|].
  split; [exact Hnd|].
  apply Honce, Hin. now left.
Defined.

(** ** Directory provisioning (lines 201-206 and 218-224) *)

Section Provisioning.
Context {host : Host}.
Variables (dir solver : string) (net : NetChoice).

Lemma dirs_made_app (tr : list Event) (paths : list string) :
  dirs_made (tr ++ map EvMakeDir paths) = (dirs_made tr ++ paths)%list.
Proof.
  unfold dirs_made. rewrite flat_map_app. f_equal.
  induction paths as [|path rest IH]; [reflexivity | simpl; now rewrite IH].
Qed.

Lemma madeDirs_flag_set (p : SupportedProtocol) (w : World) :
  madeDirs_flag p
    (with_madeDirs (Obj.set SupportedProtocol_eq_dec p true (madeDirs w)) w) = true.
Proof. unfold madeDirs_flag. cbn [madeDirs with_madeDirs]. now rewrite get_set_same. Qed.



(** A generator whose directories could not be made leaves its flag unset:
    the next invocation tries again. *)
Lemma suspending_failed (g : Suspending) (ci : IContractImport) (w : World) (e : JsError) :
  madeDirs_flag (flag g) w = false ->
  snd (makeDirs (generatorDirs g dir) w) = Some e ->
  snd (invoke_alone (Proto (flag g)) dir solver net ci w) = Returned (inl e) /\
  madeDirs_flag (flag g) (fst (invoke_alone (Proto (flag g)) dir solver net ci w)) = false.
Proof.
  intros Hflag Hdirs. unfold invoke_alone.
  replace (protocols (Proto (flag g))) with (suspending g) by now destruct g.
  unfold suspending. rewrite Hflag. cbn [negb resume].
  destruct (makeDirs_frame (generatorDirs g dir) w) as (Hm & _ & _ & _).
  destruct (makeDirs (generatorDirs g dir) w) as [w1 r]. cbn [fst snd] in *. subst r.
  cbn [resume fst snd]. split; [reflexivity|]. unfold madeDirs_flag in *. now rewrite Hm.
Qed.

End Provisioning.




(** ** Accumulation across runs *)

Section Accumulating.
Context {host : Host}.
Variables (solver dir : string) (net : NetChoice).

Lemma grows_refl (w : World) : grows w w.
Proof.
  split; [auto|]. split.
  - intros key items H. exists []. now rewrite app_nil_r.
  - intros key nets H. exists nets. split; [exact H|].
    intros n. exists []. now rewrite app_nil_r.
Qed.

Lemma grows_trans (w1 w2 w3 : World) : grows w1 w2 -> grows w2 w3 -> grows w1 w3.
Proof.
  intros (Hm & Hb & Ha) (Hm' & Hb' & Ha'). split; [auto|]. split.
  - intros key items H. destruct (Hb key items H) as [more1 H1].
    destruct (Hb' key _ H1) as [more2 H2]. exists (more1 ++ more2)%list.
    now rewrite app_assoc.
  - intros key nets H. destruct (Ha key nets H) as (nets1 & H1 & Hn1).
    destruct (Ha' key nets1 H1) as (nets2 & H2 & Hn2).
    exists nets2. split; [exact H2|]. intros n.
    destruct (Hn1 n) as [more1 E1]. destruct (Hn2 n) as [more2 E2].
    exists (more1 ++ more2)%list. now rewrite E2, E1, app_assoc.
Qed.

Lemma grows_same_tables (w w' : World) :
  madeDirs w' = madeDirs w -> abis w' = abis w -> addresses w' = addresses w ->
  grows w w'.
Proof.
  intros Hm Hb Ha. destruct (grows_refl w) as (Gm & Gb & Ga).
  unfold grows, madeDirs_flag in *. rewrite Hm, Hb, Ha. auto.
Qed.

Lemma push_abis_grows (key : Bucket) (items : list IABIReturn) (w : World) :
  grows w (fst (push_abis key items w)).
Proof.
  unfold push_abis. destruct (Obj.get Bucket_eq_dec key (abis w)) as [arr|] eqn:E;
    cbn [fst]; [|apply grows_refl].
  split; [auto|]. split; cbn [abis addresses with_abis].
  - intros k its Hk. destruct (Bucket_eq_dec key k) as [<-|Hne].
    + rewrite get_set_same. exists items. congruence.
    + rewrite (get_set_other _ _ Bucket_eq_dec key k _ _ Hne). exists [].
      now rewrite app_nil_r.
  - intros k nets Hk. exists nets. split; [exact Hk|]. intros n. exists [].
    now rewrite app_nil_r.
Qed.

Lemma push_address_grows (key : Bucket) (address : IAddressReturn) (w : World) :
  grows w (fst (push_address key address w)).
Proof.
  unfold push_address. destruct (Obj.get Bucket_eq_dec key (addresses w)) as [nets|] eqn:E;
    cbn [fst]; [|apply grows_refl].
  split; [auto|]. split; cbn [abis addresses with_addresses].
  - intros k its Hk. exists []. now rewrite app_nil_r.
  - intros k nets0 Hk. destruct (Bucket_eq_dec key k) as [<-|Hne].
    + rewrite get_set_same. eexists. split; [reflexivity|].
      assert (nets0 = nets) by congruence. subst nets0.
      intros n. destruct (NET address), n; cbn [net_push net_get onMAINNET onKOVAN onROPSTEN];
        solve [eexists; reflexivity | exists []; now rewrite app_nil_r].
    + rewrite (get_set_other _ _ Bucket_eq_dec key k _ _ Hne). exists nets0.
      split; [exact Hk|]. intros n. exists []. now rewrite app_nil_r.
Qed.

Lemma push_addresses_grows (key : Bucket) (l : list IAddressReturn) (w : World) :
  grows w (fst (push_addresses key l w)).
Proof.
  revert w. induction l as [|address rest IH]; intros w; cbn [push_addresses];
    [apply grows_refl|].
  pose proof (push_address_grows key address w) as H1.
  destruct (push_address key address w) as [w1 [e|]]; cbn [fst] in *; [exact H1|].
  exact (grows_trans _ _ _ H1 (IH w1)).
Qed.

Lemma fold_result_grows (key : Bucket) (val : IWriterReturn) (w : World) :
  grows w (fst (fold_result key val w)).
Proof.
  unfold fold_result. pose proof (push_abis_grows key (ABIs val) w) as H1.
  destruct (push_abis key (ABIs val) w) as [w1 [e|]]; cbn [fst] in *; [exact H1|].
  exact (grows_trans _ _ _ H1 (push_addresses_grows key (Addresses val) w1)).
Qed.

Lemma resume_grows (inv : Invocation) (w : World) :
  grows w (fst (resume dir solver net inv w)).
Proof.
  destruct inv as [g ci|g ci|r]; cbn [resume].
  - destruct (makeDirs_frame (generatorDirs g dir) w) as (Hm & Ha & Hb & _).
    destruct (makeDirs (generatorDirs g dir) w) as [w1 [e|]]; cbn [fst] in *.
    + now apply grows_same_tables.
    + apply (grows_trans _ w1); [now apply grows_same_tables|].
      split; [|split].
      * intros p Hp. unfold madeDirs_flag in *. cbn [madeDirs with_madeDirs].
        destruct (SupportedProtocol_eq_dec (flag g) p) as [<-|Hne].
        -- now rewrite get_set_same.
        -- now rewrite (get_set_other _ _ SupportedProtocol_eq_dec (flag g) p _ _ Hne).
      * apply (grows_refl w1).
      * apply (grows_refl w1).
  - destruct (writer g dir solver net ci (disk w)) as [d r]. cbn [fst].
    now apply grows_same_tables.
  - apply grows_refl.
Qed.

Lemma task_step_grows (t : Task) (w : World) :
  grows w (fst (task_step solver dir net t w)).
Proof.
  destruct t as [key [g c|g c|[e|val]]|r]; cbn [task_step]; try apply grows_refl.
  - pose proof (resume_grows (AwaitDirs g c) w) as H.
    destruct (resume dir solver net (AwaitDirs g c) w) as [w1 inv1]. exact H.
  - pose proof (resume_grows (AwaitWriter g c) w) as H.
    destruct (resume dir solver net (AwaitWriter g c) w) as [w1 inv1]. exact H.
  - pose proof (fold_result_grows key val w) as H.
    destruct (fold_result key val w) as [w1 [e|]]; exact H.
Qed.

(** [main] discards nothing. *)
Lemma main_grows (cis : list IContractImport) (schedule : list nat) (w : World) :
  grows w (fst (main dir cis solver net schedule w)).
Proof.
  apply (main_keeps solver dir net (grows w) (fun _ _ => True)).
  - intros ci w' H. split; [|exact I]. apply (grows_trans _ _ _ H).
    destruct (start_frame solver dir net ci w') as (Hm & Ha & Hb & _).
    now apply grows_same_tables.
  - intros ci t w' H _. split; [|exact I].
    exact (grows_trans _ _ _ H (task_step_grows t w')).
  - intros path w' H. apply (grows_trans _ _ _ H).
    destruct (call_makeDir_frame path w') as (Hm & Ha & Hb & _).
    now apply grows_same_tables.
  - intros path contents w' H. apply (grows_trans _ _ _ H).
    destruct (call_makeFile_frame path contents w') as (Hm & Ha & Hb & _).
    now apply grows_same_tables.
  - apply grows_refl.
Qed.
End Accumulating.

(** C9, as the code has it: the tables and the flags are made once, with the
    singleton, and [main] neither discards nor resets them.  Whatever a run
    finds when it starts is still there when it stops, wherever it stops: a
    flag that was set is set, and every array of ABI fragments and every
    array of addresses begins with what it held.  A second run on the
    singleton therefore starts from what the first run left. *)
Theorem main_keeps_what_was_accumulated {host : Host}
        (dir : string) (cis : list IContractImport) (solver : string) (net : NetChoice)
        (schedule : list nat) (w : World) :
  (forall p, madeDirs_flag p w = true ->
             madeDirs_flag p (fst (main dir cis solver net schedule w)) = true) /\
  (forall key items,
      Obj.get Bucket_eq_dec key (abis w) = Some items ->
      exists more,
        Obj.get Bucket_eq_dec key (abis (fst (main dir cis solver net schedule w)))
        = Some (items ++ more)%list) /\
  (forall key nets,
      Obj.get Bucket_eq_dec key (addresses w) = Some nets ->
      exists nets',
        Obj.get Bucket_eq_dec key (addresses (fst (main dir cis solver net schedule w)))
        = Some nets' /\
        forall n, exists more, net_get n nets' = (net_get n nets ++ more)%list).
Proof. exact (main_grows solver dir net cis schedule w). Qed.

(** C9 as worded fails: after a first run that imported BANCOR the flag of
    BANCOR is set and the tables are not those of a fresh singleton, and a
    second run of the same import writes the fragment of the first run
    again. *)
Lemma second_run_starts_from_the_first :
  madeDirs_flag BANCOR
    (fst (@main okHost "." ["bancor"] "0.8.0" all (round_robin 1) (@instance okHost tt)))
  = true /\
  abis (fst (@main okHost "." ["bancor"] "0.8.0" all (round_robin 1) (@instance okHost tt)))
  <> abis (@instance okHost tt) /\
  addresses (fst (@main okHost "." ["bancor"] "0.8.0" all (round_robin 1)
                        (@instance okHost tt)))
  <> addresses (@instance okHost tt) /\
  abis_text
    (fst (@main okHost "." ["bancor"] "0.8.0" all (round_robin 1)
                (fst (@main okHost "." ["bancor"] "0.8.0" all (round_robin 1)
                            (@instance okHost tt)))))
  = "export const BANCOR_ABI = {" ++ nl ++ "  IBancorNetwork: []," ++ nl
      ++ "  IBancorNetwork: []," ++ nl ++ "}".
Proof.
  split; [reflexivity|]. split; [vm_compute; discriminate|].
  split; [vm_compute; discriminate | reflexivity].
Qed.

(** ** The keys of the tables *)

Section KeysFacts.
Context {host : Host}.
Variables (solver dir : string) (net : NetChoice).

Lemma fold_set_NoDup {K V A : Type} (K_eq_dec : forall a b : K, {a = b} + {a <> b})
                     (key : A -> K) (v : V) (l : list A) (o : Obj.t K V) :
  NoDup (Obj.keys o) ->
  NoDup (Obj.keys (fold_left (fun obj a => Obj.set K_eq_dec (key a) v obj) l o)).
Proof.
  revert o. induction l as [|a l IH]; intros o Hnd; cbn [fold_left]; [exact Hnd|].
  apply IH, NoDup_keys_set, Hnd.
Qed.

Lemma instance_distinct_keys (d : Disk) : distinct_keys (instance d).
Proof.
  split; cbn [instance abis addresses]; unfold init_abis, init_addresses;
    apply NoDup_keys_set, fold_set_NoDup; constructor.
Qed.

Lemma push_abis_keys (key : Bucket) (items : list IABIReturn) (w : World) :
  Obj.keys (abis (fst (push_abis key items w))) = Obj.keys (abis w).
Proof.
  unfold push_abis. destruct (Obj.get Bucket_eq_dec key (abis w)) as [arr|] eqn:E;
    cbn [fst abis with_abis]; [|reflexivity].
  exact (keys_set_present _ _ Bucket_eq_dec key _ arr (abis w) E).
Qed.

Lemma push_addresses_keys (key : Bucket) (l : list IAddressReturn) (w : World) :
  Obj.keys (addresses (fst (push_addresses key l w))) = Obj.keys (addresses w).
Proof.
  revert w. induction l as [|address rest IH]; intros w; cbn [push_addresses]; [reflexivity|].
  assert (H1 : Obj.keys (addresses (fst (push_address key address w)))
               = Obj.keys (addresses w)).
  { unfold push_address.
    destruct (Obj.get Bucket_eq_dec key (addresses w)) as [nets|] eqn:E;
      cbn [fst addresses with_addresses]; [|reflexivity].
    exact (keys_set_present _ _ Bucket_eq_dec key _ nets (addresses w) E). }
  destruct (push_address key address w) as [w1 [e|]]; cbn [fst] in *; [exact H1|].
  now rewrite IH.
Qed.

Lemma fold_result_keys (key : Bucket) (val : IWriterReturn) (w : World) :
  distinct_keys w -> distinct_keys (fst (fold_result key val w)).
Proof.
  unfold distinct_keys, fold_result. intros [Hb Ha].
  pose proof (push_abis_keys key (ABIs val) w) as Kb.
  destruct (push_abis_frame key (ABIs val) w) as (_ & Ea & _ & _).
  destruct (push_abis key (ABIs val) w) as [w1 [e|]]; cbn [fst] in *.
  - now rewrite Kb, Ea.
  - destruct (push_addresses_frame key (Addresses val) w1) as (_ & Eb & _ & _).
    now rewrite Eb, Kb, (push_addresses_keys key (Addresses val) w1), Ea.
Qed.

Lemma task_step_keys (t : Task) (w : World) :
  distinct_keys w -> distinct_keys (fst (task_step solver dir net t w)).
Proof.
  intros H. destruct t as [key [g c|g c|[e|val]]|r]; cbn [task_step]; try exact H.
  - destruct (resume_frame dir solver net (AwaitDirs g c) w) as (Ha & Hb & _).
    destruct (resume dir solver net (AwaitDirs g c) w) as [w1 inv1]. cbn [fst] in *.
    unfold distinct_keys. now rewrite Ha, Hb.
  - destruct (resume_frame dir solver net (AwaitWriter g c) w) as (Ha & Hb & _).
    destruct (resume dir solver net (AwaitWriter g c) w) as [w1 inv1]. cbn [fst] in *.
    unfold distinct_keys. now rewrite Ha, Hb.
  - pose proof (fold_result_keys key val w H) as H1.
    destruct (fold_result key val w) as [w1 [e|]]; exact H1.
Qed.

Lemma NoDup_keys_filter {K V : Type} (f : K * V -> bool) (o : Obj.t K V) :
  NoDup (Obj.keys o) -> NoDup (Obj.keys (filter f o)).
Proof.
  unfold Obj.keys. induction o as [|[k v] o IH]; cbn [filter map fst]; intros Hnd;
    [constructor|].
  inversion Hnd as [|? ? Hnotin Hrest]; subst.
  destruct (f (k, v)); cbn [map fst]; [|auto].
  constructor; [|auto].
  intros Hin. apply Hnotin. apply in_map_iff in Hin. destruct Hin as (x & Hx & Hin).
  apply filter_In in Hin. apply in_map_iff. exists x. tauto.
Qed.
End KeysFacts.

Lemma reachable_distinct_keys {host : Host} (w : World) : reachable w -> distinct_keys w.
Proof.
  induction 1 as [d|w dir cis solver net schedule _ IH].
  - apply instance_distinct_keys.
  - apply (main_keeps solver dir net distinct_keys (fun _ _ => True)); [| | | |exact IH].
    + intros ci w' H. split; [|exact I].
      destruct (start_frame solver dir net ci w') as (_ & Ha & Hb & _).
      unfold distinct_keys. now rewrite Ha, Hb.
    + intros ci t w' H _. split; [exact (task_step_keys solver dir net t w' H) | exact I].
    + intros path w' H. destruct (call_makeDir_frame path w') as (_ & Ha & Hb & _).
      unfold distinct_keys. now rewrite Ha, Hb.
    + intros path contents w' H.
      destruct (call_makeFile_frame path contents w') as (_ & Ha & Hb & _).
      unfold distinct_keys. now rewrite Ha, Hb.
Qed.

(** C7: the text written to [lib/abis.ts] is the ABI registry in the
    specification's wording (one export [<PROTOCOL>_ABI] per bucket other
    than ERROR that holds a fragment, the fragments in stored order, each
    followed by a comma, the whole trimmed), and the text written to
    [lib/addresses.ts] is the address registry in the specification's wording
    (per bucket other than ERROR with a record in some network, one nested
    object per network that has records, the records in stored order).  The
    ERROR bucket, the buckets without entries and the networks without
    records are left out of both, and in a reachable world no bucket is
    listed twice. *)
Theorem registries_list_filled_buckets {host : Host} (w : World) :
  abis_text w = renderAbiRegistry (abis w) /\
  addresses_text w = renderAddressRegistry (addresses w) /\
  (reachable w ->
   NoDup (Obj.keys (filter spec_abi_listed (abis w))) /\
   NoDup (Obj.keys (filter spec_protocol_listed (addresses w)))).
Proof.
  destruct (registries_agree w) as [Hb Ha].
  split; [exact Hb|]. split; [exact Ha|].
  intros Hw. destruct (reachable_distinct_keys w Hw) as [Kb Ka].
  split; now apply NoDup_keys_filter.
Qed.

Lemma registries_list_filled_buckets_witness :
  reachable (fst (@main okHost "." ["bancor"; "made_up"] "0.8.0" all (round_robin 2)
                        (@instance okHost tt))) /\
  abis_text (fst (@main okHost "." ["bancor"; "made_up"] "0.8.0" all (round_robin 2)
                        (@instance okHost tt)))
  = "export const BANCOR_ABI = {" ++ nl ++ "  IBancorNetwork: []," ++ nl ++ "}" /\
  addresses_text (fst (@main okHost "." ["bancor"; "made_up"] "0.8.0" all (round_robin 2)
                             (@instance okHost tt)))
  = "export const Addresses = {" ++ nl ++ "  BANCOR: {" ++ nl ++ "    MAINNET: {" ++ nl
      ++ "      BancorNetwork: '0x2F9EC37d6CcFFf1caB21733BdaDEdE11c823cCB0'," ++ nl
      ++ "    }," ++ nl ++ "  }," ++ nl ++ nl ++ "}" /\
  NoDup (Obj.keys (filter spec_abi_listed
                     (abis (fst (@main okHost "." ["bancor"; "made_up"] "0.8.0" all
                                       (round_robin 2) (@instance okHost tt)))))).
Proof.
  destruct (@registries_list_filled_buckets okHost
              (fst (@main okHost "." ["bancor"; "made_up"] "0.8.0" all (round_robin 2)
                          (@instance okHost tt)))) as (Hb & Ha & Hkeys).
  assert (Hw : reachable (fst (@main okHost "." ["bancor"; "made_up"] "0.8.0" all
                                     (round_robin 2) (@instance okHost tt))))
    by (apply reach_main, reach_instance).
  split; [exact Hw|]. split; [rewrite Hb; reflexivity|]. split; [rewrite Ha; reflexivity|].
  exact (proj1 (Hkeys Hw)).
Defined.

(** Two BANCOR imports of one batch both find the flag unset, because both
    generators are started before either is resumed: the directory is asked
    of [makeDir] twice. *)
Example two_imports_of_a_batch_both_provision :
  dirs_made (trace (fst (@work okHost "0.8.0" ["bancor"; "bancor"] "." all (round_robin 2)
                                (@instance okHost tt))))
  = ["./contracts/interfaces/Bancor"; "./contracts/interfaces/Bancor"].
Proof. reflexivity. Qed.

(** * Beyond the claims *)

(** ** The sequence of [main] (lines 89-107, 264-271) *)

Section MainSequence.
Context {host : Host}.
Variables (solver dir : string) (net : NetChoice).

Lemma files_written_app (tr1 tr2 : list Event) :
  files_written (tr1 ++ tr2) = (files_written tr1 ++ files_written tr2)%list.
Proof. unfold files_written. apply flat_map_app. Qed.

Lemma dirs_made_events_app (tr1 tr2 : list Event) :
  dirs_made (tr1 ++ tr2) = (dirs_made tr1 ++ dirs_made tr2)%list.
Proof. unfold dirs_made. apply flat_map_app. Qed.

Lemma buildFiles_frame (w : World) :
  madeDirs (fst (buildFiles dir w)) = madeDirs w /\
  addresses (fst (buildFiles dir w)) = addresses w /\
  abis (fst (buildFiles dir w)) = abis w /\
  trace (fst (buildFiles dir w))
  = (trace w ++ [EvMakeFile (pathResolve (dir ++ "/lib/abis.ts")) (abis_text w);
                 EvMakeFile (pathResolve (dir ++ "/lib/addresses.ts")) (addresses_text w)])%list.
Proof.
  unfold buildFiles, buildABIFile, buildAddressesFile.
  destruct (call_makeFile_frame (pathResolve (dir ++ "/lib/abis.ts")) (abis_text w) w)
    as (Hm & Ha & Hb & Ht).
  destruct (call_makeFile _ (abis_text w) w) as [w1 r1]. cbn [fst] in *.
  destruct (call_makeFile_frame (pathResolve (dir ++ "/lib/addresses.ts"))
              (addresses_text w1) w1) as (Hm' & Ha' & Hb' & Ht').
  destruct (call_makeFile _ (addresses_text w1) w1) as [w2 r2]. cbn [fst] in *.
  rewrite Hm', Ha', Hb', Ht', Hm, Ha, Hb, Ht, <- app_assoc.
  unfold addresses_text. rewrite Ha. auto.
Qed.

Lemma buildFiles_files (w : World) :
  files_written (trace (fst (buildFiles dir w)))
  = (files_written (trace w) ++ registry_files dir (fst (buildFiles dir w)))%list.
Proof.
  destruct (buildFiles_frame w) as (_ & Ha & Hb & Ht).
  rewrite Ht, files_written_app. unfold registry_files, abis_text, addresses_text.
  now rewrite Ha, Hb.
Qed.

Lemma task_step_dirs (t : Task) (w : World) :
  exists more,
    dirs_made (trace (fst (task_step solver dir net t w))) = (dirs_made (trace w) ++ more)%list /\
    Forall (generator_dir dir) more /\
    (awaits_dirs t = false -> more = []).
Proof.
  destruct t as [key [g c|g c|[e|val]]|r]; cbn [task_step awaits_dirs].
  - exists (generatorDirs g dir). cbn [resume].
    destruct (makeDirs_frame (generatorDirs g dir) w) as (_ & _ & _ & Ht).
    destruct (makeDirs (generatorDirs g dir) w) as [w1 [e|]]; cbn [fst trace with_madeDirs] in *;
      rewrite Ht, dirs_made_app;
      (split; [reflexivity | split; [|discriminate]]);
      apply Forall_forall; intros path Hp; now exists g.
  - exists []. cbn [resume]. destruct (writer g dir solver net c (disk w)) as [d r].
    cbn [fst trace with_disk]. now rewrite app_nil_r.
  - exists []. cbn [fst]. now rewrite app_nil_r.
  - exists []. destruct (fold_result_frame key val w) as (_ & _ & Ht).
    destruct (fold_result key val w) as [w1 [e|]]; cbn [fst] in *;
      now rewrite Ht, app_nil_r.
  - exists []. cbn [fst]. now rewrite app_nil_r.
Qed.

(** [#work] asks [makeDir] for directories of [#bancor] and [#dydx] only. *)
Lemma work_dirs (cis : list IContractImport) (schedule : list nat) (w : World) :
  exists more,
    dirs_made (trace (fst (work solver cis dir net schedule w)))
    = (dirs_made (trace w) ++ more)%list /\
    Forall (generator_dir dir) more.
Proof.
  apply (work_keeps solver dir net
           (fun w' => exists more, dirs_made (trace w') = (dirs_made (trace w) ++ more)%list /\
                                   Forall (generator_dir dir) more)
           (fun _ _ => True)).
  - intros ci w' H. split; [|exact I].
    destruct (start_frame solver dir net ci w') as (_ & _ & _ & _ & Hd). now rewrite Hd.
  - intros ci t w' (more & Hd & Hall) _. split; [|exact I].
    destruct (task_step_dirs t w') as (more' & Hd' & Hall' & _).
    exists (more ++ more')%list. rewrite Hd', Hd, app_assoc. split; [reflexivity|].
    apply Forall_app. auto.
  - exists []. now rewrite app_nil_r.
Qed.

Lemma run_schedule_no_element (schedule : list nat) (w : World) (rej : option JsError) :
  run_schedule solver dir net schedule (w, {| tasks := []; rejection := rej |})
  = (w, {| tasks := []; rejection := rej |}).
Proof.
  unfold run_schedule. induction schedule as [|i rest IH]; cbn [fold_left]; [reflexivity|].
  replace (pool_step solver dir net i (w, {| tasks := []; rejection := rej |}))
    with (w, {| tasks := []; rejection := rej |}); [exact IH|].
  unfold pool_step. cbn [tasks]. now destruct i.
Qed.
End MainSequence.

(** X1: when a base directory cannot be made [main] is rejected, with the
    rejection of one of the [makeDir] calls on a base directory; all four
    directories were asked for, nothing else was done (no generator started,
    nothing logged, no file written) and the tables and flags are as they
    were. *)
Theorem main_stops_at_base_directories {host : Host}
        (dir : string) (cis : list IContractImport) (solver : string) (net : NetChoice)
        (schedule : list nat) (w : World) :
  snd (makeBaseDirs dir w) <> None ->
  (exists e,
      snd (main dir cis solver net schedule w) = Rejected e /\
      exists path d, In path (baseDirs dir) /\ snd (makeDir path d) = Some e) /\
  trace (fst (main dir cis solver net schedule w))
  = (trace w ++ map EvMakeDir (baseDirs dir))%list /\
  madeDirs (fst (main dir cis solver net schedule w)) = madeDirs w /\
  abis (fst (main dir cis solver net schedule w)) = abis w /\
  addresses (fst (main dir cis solver net schedule w)) = addresses w.
Proof.
  intros Hbase. unfold main.
  pose proof (makeDirs_frame (baseDirs dir) w) as (Hm & Ha & Hb & Ht).
  pose proof (makeDirs_rejection_of_a_call (baseDirs dir) w) as Hcall.
  change (makeDirs (baseDirs dir) w) with (makeBaseDirs dir w) in *.
  destruct (makeBaseDirs dir w) as [w1 [e|]]; [|now elim Hbase]. cbn [fst snd] in *.
  split; [|auto]. exists e. split; [reflexivity | exact (Hcall e eq_refl)].
Qed.

Lemma main_stops_at_base_directories_witness :
  snd (@makeBaseDirs readOnlyHost "." (@instance readOnlyHost tt)) <> None /\
  (exists e,
      snd (@main readOnlyHost "." ["bancor"; "made_up"] "0.8.0" all (round_robin 2)
                 (@instance readOnlyHost tt)) = Rejected e /\
      exists path d, In path (@baseDirs readOnlyHost ".") /\
                     snd (@makeDir readOnlyHost path d) = Some e) /\
  trace (fst (@main readOnlyHost "." ["bancor"; "made_up"] "0.8.0" all (round_robin 2)
                    (@instance readOnlyHost tt)))
  = map EvMakeDir (@baseDirs readOnlyHost ".").
Proof.
  assert (Hbase : snd (@makeBaseDirs readOnlyHost "." (@instance readOnlyHost tt)) <> None)
    by (vm_compute; discriminate).
  destruct (@main_stops_at_base_directories readOnlyHost "." ["bancor"; "made_up"] "0.8.0"
              all (round_robin 2) (@instance readOnlyHost tt) Hbase) as (H1 & H2 & _).
  split; [exact Hbase|]. split; [exact H1 | exact H2].
Defined.

(** X2: the directories [main] asks [makeDir] for are, first, the four base
    directories in the order of [makeBaseDirs], then directories of [#bancor]
    and [#dydx] only; this holds however the run ends and under every
    schedule. *)
Theorem main_directories {host : Host}
        (dir : string) (cis : list IContractImport) (solver : string) (net : NetChoice)
        (schedule : list nat) (w : World) :
  exists more,
    dirs_made (trace (fst (main dir cis solver net schedule w)))
    = (dirs_made (trace w) ++ baseDirs dir ++ more)%list /\
    Forall (generator_dir dir) more.
Proof.
  unfold main.
  pose proof (makeDirs_frame (baseDirs dir) w) as (_ & _ & _ & Ht).
  change (makeDirs (baseDirs dir) w) with (makeBaseDirs dir w) in *.
  destruct (makeBaseDirs dir w) as [w1 [e|]]; cbn [fst] in *.
  - exists []. rewrite Ht, dirs_made_app, app_nil_r. auto.
  - destruct (work_dirs solver dir net cis schedule w1) as (more & Hd & Hall).
    exists more. split; [|exact Hall].
    assert (Hw2 : forall w2,
               dirs_made (trace w2)
               = dirs_made (trace (fst (work solver cis dir net schedule w1))) ->
               dirs_made (trace w2) = (dirs_made (trace w) ++ baseDirs dir ++ more)%list).
    { intros w2 ->. now rewrite Hd, Ht, dirs_made_app, app_assoc. }
    destruct (work solver cis dir net schedule w1) as [w2 pool]. cbn [fst] in *.
    destruct (Promise_all pool) as [|val|e]; cbn [fst]; try (now apply Hw2).
    destruct (buildFiles_frame dir w2) as (_ & _ & _ & Hf).
    destruct (buildFiles dir w2) as [w3 [e|]]; cbn [fst] in *; apply Hw2;
      rewrite Hf, dirs_made_events_app; cbn; now rewrite app_nil_r.
Qed.

(** X3: [main] on an empty list of imports resolves with the empty array as
    soon as the base directories are made and the two files written, under
    every schedule; both files are written from the tables as they were. *)
Theorem main_of_no_import {host : Host}
        (dir solver : string) (net : NetChoice) (schedule : list nat) (w : World) :
  snd (makeBaseDirs dir w) = None ->
  snd (buildFiles dir (fst (makeBaseDirs dir w))) = None ->
  snd (main dir [] solver net schedule w) = Resolved [] /\
  files_written (trace (fst (main dir [] solver net schedule w)))
  = (files_written (trace w) ++ registry_files dir w)%list /\
  abis (fst (main dir [] solver net schedule w)) = abis w /\
  addresses (fst (main dir [] solver net schedule w)) = addresses w.
Proof.
  intros Hbase Hbuild. unfold main, work. cbn [start_all].
  pose proof (makeDirs_frame (baseDirs dir) w) as (_ & Ha & Hb & _).
  pose proof (makeDirs_files (baseDirs dir) w) as Hf.
  change (makeDirs (baseDirs dir) w) with (makeBaseDirs dir w) in *.
  destruct (makeBaseDirs dir w) as [w1 r]. cbn [fst snd] in *. subst r.
  rewrite run_schedule_no_element. cbn [Promise_all rejection tasks all_resolved].
  pose proof (buildFiles_files dir w1) as Hfiles.
  destruct (buildFiles_frame dir w1) as (_ & Ha3 & Hb3 & _).
  destruct (buildFiles dir w1) as [w3 r3]. cbn [fst snd] in *. subst r3. cbn [fst snd].
  split; [reflexivity|].
  rewrite Hfiles, Hf, Ha3, Hb3. unfold registry_files, abis_text, addresses_text.
  now rewrite Ha3, Hb3, Ha, Hb.
Qed.

Lemma main_of_no_import_witness :
  snd (@makeBaseDirs okHost "." (@instance okHost tt)) = None /\
  snd (@buildFiles okHost "." (fst (@makeBaseDirs okHost "." (@instance okHost tt)))) = None /\
  snd (@main okHost "." [] "0.8.0" all [0; 5; 1] (@instance okHost tt)) = Resolved [] /\
  files_written (trace (fst (@main okHost "." [] "0.8.0" all [0; 5; 1] (@instance okHost tt))))
  = [("./lib/abis.ts", EmptyString);
     ("./lib/addresses.ts", "export const Addresses = {" ++ nl ++ "}")].
Proof.
  destruct (@main_of_no_import okHost "." "0.8.0" all [0; 5; 1] (@instance okHost tt)
              eq_refl eq_refl) as (H1 & H2 & _).
  split; [reflexivity|]. split; [reflexivity|]. split; [exact H1|].
  rewrite H2. reflexivity.
Defined.


Lemma buildFiles_rejection_of_a_call {host : Host} (dir : string) (w : World) (e : JsError) :
  snd (buildFiles dir w) = Some e ->
  exists path contents d,
    In (path, contents) (registry_files dir w) /\ snd (makeFile path contents d) = Some e.
Proof.
  unfold buildFiles, buildABIFile, buildAddressesFile, registry_files, call_makeFile.
  destruct (makeFile (pathResolve (dir ++ "/lib/abis.ts")) (abis_text w) (disk w))
    as [d1 r1] eqn:E1.
  change (addresses_text
            (with_disk d1 (emit (EvMakeFile (pathResolve (dir ++ "/lib/abis.ts"))
                                            (abis_text w)) w)))
    with (addresses_text w).
  cbn [disk with_disk].
  destruct (makeFile (pathResolve (dir ++ "/lib/addresses.ts")) (addresses_text w) d1)
    as [d2 r2] eqn:E2.
  cbn [snd]. destruct r1 as [e1|]; cbn [first_rejection].
  - intros [= ->]. exists (pathResolve (dir ++ "/lib/abis.ts")), (abis_text w), (disk w).
    split; [now left | now rewrite E1].
  - intros ->. exists (pathResolve (dir ++ "/lib/addresses.ts")), (addresses_text w), d1.
    split; [right; now left | now rewrite E2].
Qed.

(** X5: [main] is rejected for one of three reasons only: a base directory
    could not be made, and the error is the rejection of one of the
    [makeDir] calls on a base directory; or an element of the batch was
    rejected, and the error is that of a rejected element; or every element
    resolved and a registry file could not be written, and the error is the
    rejection of one of the two [makeFile] calls. *)
Theorem main_rejection_sources {host : Host}
        (dir : string) (cis : list IContractImport) (solver : string) (net : NetChoice)
        (schedule : list nat) (w : World) (e : JsError) :
  snd (main dir cis solver net schedule w) = Rejected e ->
  (snd (makeBaseDirs dir w) <> None /\
   exists path d, In path (baseDirs dir) /\ snd (makeDir path d) = Some e) \/
  (snd (makeBaseDirs dir w) = None /\
   In (Settled (inl e))
      (tasks (snd (work solver cis dir net schedule (fst (makeBaseDirs dir w)))))) \/
  (snd (makeBaseDirs dir w) = None /\
   (exists val,
       Promise_all (snd (work solver cis dir net schedule (fst (makeBaseDirs dir w))))
       = Resolved val) /\
   snd (buildFiles dir (fst (work solver cis dir net schedule (fst (makeBaseDirs dir w)))))
   <> None /\
   exists path contents d,
     In (path, contents)
        (registry_files dir (fst (work solver cis dir net schedule (fst (makeBaseDirs dir w)))))
     /\ snd (makeFile path contents d) = Some e).
Proof.
  unfold main.
  pose proof (makeDirs_rejection_of_a_call (baseDirs dir) w) as Hcall.
  change (makeDirs (baseDirs dir) w) with (makeBaseDirs dir w) in *.
  destruct (makeBaseDirs dir w) as [w1 [e1|]]; cbn [fst snd] in *.
  - intros [= ->]. left. split; [discriminate | exact (Hcall e eq_refl)].
  - pose proof (work_rejection solver dir net cis schedule w1) as Hrec.
    destruct (work solver cis dir net schedule w1) as [w2 pool]. cbn [fst snd] in *.
    unfold Promise_all at 1. unfold rejection_recorded in Hrec.
    destruct (rejection pool) as [e2|] eqn:Hrej.
    + cbn [snd]. intros [= ->]. right. left. auto.
    + destruct (all_resolved (tasks pool)) as [val|] eqn:Hall; cbn [snd]; [|discriminate].
      pose proof (buildFiles_rejection_of_a_call dir w2) as Hfile.
      destruct (buildFiles dir w2) as [w3 [e3|]]; cbn [snd] in *; [|discriminate].
      intros [= ->]. right. right. split; [reflexivity|]. split; [|split].
      * exists val. unfold Promise_all. now rewrite Hrej, Hall.
      * discriminate.
      * exact (Hfile e eq_refl).
Qed.

Lemma main_rejection_sources_witness :
  snd (@main failingHost "." ["bancor"; "dydx"] "0.8.0" all (round_robin 2)
             (@instance failingHost tt))
  = Rejected (Failure "dydx writer") /\
  In (Settled (inl (Failure "dydx writer")))
     (tasks (snd (@work failingHost "0.8.0" ["bancor"; "dydx"] "." all (round_robin 2)
                        (fst (@makeBaseDirs failingHost "." (@instance failingHost tt)))))).
Proof.
  split; [reflexivity|].
  destruct (@main_rejection_sources failingHost "." ["bancor"; "dydx"] "0.8.0" all
              (round_robin 2) (@instance failingHost tt) (Failure "dydx writer") eq_refl)
    as [[H _]|[[_ H]|(_ & _ & H & _)]];
    [now elim H | exact H | now elim H].
Defined.

(** ** The callback of [.then] (lines 120-133) *)

Section Folding.
Context {host : Host}.

Lemma net_get_push (n m : SupportedNetwork) (e : AddressEntry) (nets : Networks) :
  net_get n (net_push m e nets)
  = (net_get n nets ++ if SupportedNetwork_eq_dec m n then [e] else [])%list.
Proof. destruct m, n; cbn; now rewrite ?app_nil_r. Qed.

Lemma push_addresses_exact (key : Bucket) (l : list IAddressReturn) (w : World)
                           (nets : Networks) :
  Obj.get Bucket_eq_dec key (addresses w) = Some nets ->
  snd (push_addresses key l w) = None /\
  exists nets',
    Obj.get Bucket_eq_dec key (addresses (fst (push_addresses key l w))) = Some nets' /\
    forall n, net_get n nets' = (net_get n nets ++ entries_on n l)%list.
Proof.
  revert w nets. induction l as [|a rest IH]; intros w nets Hget; cbn [push_addresses].
  - split; [reflexivity|]. exists nets. split; [exact Hget|].
    intros n. unfold entries_on. cbn. now rewrite app_nil_r.
  - unfold push_address. rewrite Hget.
    destruct (IH (with_addresses
                    (Obj.set Bucket_eq_dec key
                       (net_push (NET a)
                          {| entryContractName := ContractName a; entryAddress := Address a |}
                          nets) (addresses w)) w)
                 (net_push (NET a) (entry_of a) nets)) as (Hnone & nets' & Hget' & Hn).
    { cbn [addresses with_addresses]. apply get_set_same. }
    split; [exact Hnone|]. exists nets'. split; [exact Hget'|].
    intros n. rewrite Hn, net_get_push, <- app_assoc. f_equal.
    unfold entries_on. cbn [filter].
    destruct (SupportedNetwork_eq_dec (NET a) n); reflexivity.
Qed.

Lemma fold_result_exact (key : Bucket) (val : IWriterReturn) (w : World)
                        (arr : list IABIReturn) (nets : Networks) :
  Obj.get Bucket_eq_dec key (abis w) = Some arr ->
  Obj.get Bucket_eq_dec key (addresses w) = Some nets ->
  snd (fold_result key val w) = None /\
  Obj.get Bucket_eq_dec key (abis (fst (fold_result key val w)))
  = Some (arr ++ ABIs val)%list /\
  exists nets',
    Obj.get Bucket_eq_dec key (addresses (fst (fold_result key val w))) = Some nets' /\
    forall n, net_get n nets' = (net_get n nets ++ entries_on n (Addresses val))%list.
Proof.
  intros Hb Ha. unfold fold_result, push_abis. rewrite Hb.
  set (w1 := with_abis (Obj.set Bucket_eq_dec key (arr ++ ABIs val)%list (abis w)) w).
  destruct (push_addresses_exact key (Addresses val) w1 nets Ha) as (Hnone & nets' & Hg & Hn).
  destruct (push_addresses_frame key (Addresses val) w1) as (_ & Hb1 & _ & _).
  split; [exact Hnone|]. split; [|eauto].
  rewrite Hb1. unfold w1. cbn [abis with_abis]. apply get_set_same.
Qed.
End Folding.

(** X6: when the key has its two arrays, the callback of [.then] does not
    throw; it appends the ABI fragments of the result, in order, to the
    fragments under the key, and appends each address of the result to the
    array of its own network under the key, so that each network array grows
    by the result's addresses on that network, in order, each reduced to its
    name and address.  The arrays under every other key, the flags and the
    record of calls are untouched. *)
Theorem fold_result_appends {host : Host}
        (key : Bucket) (val : IWriterReturn) (w : World)
        (arr : list IABIReturn) (nets : Networks) :
  Obj.get Bucket_eq_dec key (abis w) = Some arr ->
  Obj.get Bucket_eq_dec key (addresses w) = Some nets ->
  snd (fold_result key val w) = None /\
  Obj.get Bucket_eq_dec key (abis (fst (fold_result key val w)))
  = Some (arr ++ ABIs val)%list /\
  (exists nets',
      Obj.get Bucket_eq_dec key (addresses (fst (fold_result key val w))) = Some nets' /\
      forall n, net_get n nets' = (net_get n nets ++ entries_on n (Addresses val))%list) /\
  (forall k, key <> k ->
             Obj.get Bucket_eq_dec k (abis (fst (fold_result key val w)))
             = Obj.get Bucket_eq_dec k (abis w) /\
             Obj.get Bucket_eq_dec k (addresses (fst (fold_result key val w)))
             = Obj.get Bucket_eq_dec k (addresses w)) /\
  madeDirs (fst (fold_result key val w)) = madeDirs w /\
  trace (fst (fold_result key val w)) = trace w.
Proof.
  intros Hb Ha.
  destruct (fold_result_exact key val w arr nets Hb Ha) as (H1 & H2 & H3).
  destruct (fold_result_frame key val w) as (Hm & _ & Ht).
  split; [exact H1|]. split; [exact H2|]. split; [exact H3|].
  split; [|split; assumption].
  intros k Hk. apply fold_result_other, Hk.
Qed.

Lemma fold_result_appends_witness :
  Obj.get Bucket_eq_dec (Proto BANCOR) (abis (@instance okHost tt)) = Some [] /\
  Obj.get Bucket_eq_dec (Proto BANCOR) (addresses (@instance okHost tt)) = Some noAddresses /\
  snd (@fold_result okHost (Proto BANCOR) bancorSample (@instance okHost tt)) = None /\
  Obj.get Bucket_eq_dec (Proto BANCOR)
    (abis (fst (@fold_result okHost (Proto BANCOR) bancorSample (@instance okHost tt))))
  = Some [ {| ABI := "IBancorNetwork: []" |} ].
Proof.
  destruct (@fold_result_appends okHost (Proto BANCOR) bancorSample (@instance okHost tt)
              [] noAddresses eq_refl eq_refl) as (H1 & H2 & _).
  split; [reflexivity|]. split; [reflexivity|]. split; [exact H1 | exact H2].
Defined.

(** ** The keys of the tables, again *)

Section KeysKept.
Context {host : Host}.

Lemma get_of_key {K V : Type} (K_eq_dec : forall a b : K, {a = b} + {a <> b})
                 (k : K) (o : Obj.t K V) :
  In k (Obj.keys o) -> exists v, Obj.get K_eq_dec k o = Some v.
Proof.
  unfold Obj.keys. induction o as [|[k' v'] rest IH]; simpl; [tauto|].
  intros [Heq|Hin]; destruct (K_eq_dec k k'); eauto; congruence.
Qed.

Lemma get_without_key {K V : Type} (K_eq_dec : forall a b : K, {a = b} + {a <> b})
                      (k : K) (o : Obj.t K V) :
  ~ In k (Obj.keys o) -> Obj.get K_eq_dec k o = None.
Proof.
  unfold Obj.keys. induction o as [|[k' v'] rest IH]; simpl; [reflexivity|].
  intros Hnot. destruct (K_eq_dec k k') as [Heq|Hne]; [|tauto].
  elim Hnot. left. now symmetry.
Qed.

Lemma keys_set_new {K V : Type} (K_eq_dec : forall a b : K, {a = b} + {a <> b})
                   (k : K) (v : V) (o : Obj.t K V) :
  ~ In k (Obj.keys o) -> Obj.keys (Obj.set K_eq_dec k v o) = (Obj.keys o ++ [k])%list.
Proof.
  unfold Obj.keys. induction o as [|[k' v'] rest IH]; simpl; intros Hnot; [reflexivity|].
  destruct (K_eq_dec k k') as [Heq|Hne]; [elim Hnot; left; now symmetry|].
  simpl. f_equal. apply IH. tauto.
Qed.

Lemma in_keys_fold_set {K V A : Type} (K_eq_dec : forall a b : K, {a = b} + {a <> b})
                       (f : A -> K) (v : V) (l : list A) (o : Obj.t K V) (k : K) :
  In k (Obj.keys (fold_left (fun obj a => Obj.set K_eq_dec (f a) v obj) l o))
  <-> In k (Obj.keys o) \/ In k (map f l).
Proof.
  revert o. induction l as [|a l IH]; intros o; cbn [fold_left map].
  - simpl. tauto.
  - rewrite IH, in_keys_set. simpl. intuition congruence.
Qed.

Lemma keys_fold_set {K V A : Type} (K_eq_dec : forall a b : K, {a = b} + {a <> b})
                    (f : A -> K) (v : V) (l : list A) (o : Obj.t K V) :
  NoDup (map f l) -> (forall a, In a l -> ~ In (f a) (Obj.keys o)) ->
  Obj.keys (fold_left (fun obj a => Obj.set K_eq_dec (f a) v obj) l o)
  = (Obj.keys o ++ map f l)%list.
Proof.
  revert o. induction l as [|a l IH]; intros o Hnd Hnew; cbn [fold_left map].
  - now rewrite app_nil_r.
  - inversion Hnd as [|? ? Hnotin Hrest]; subst.
    rewrite IH; [| exact Hrest |].
    + rewrite keys_set_new by (apply Hnew; now left). now rewrite <- app_assoc.
    + intros b Hb Hin. apply in_keys_set in Hin. destruct Hin as [Heq|Hin].
      * apply Hnotin. rewrite <- Heq. now apply in_map.
      * exact (Hnew b (or_intror Hb) Hin).
Qed.

Lemma NoDup_map_Proto (l : list SupportedProtocol) : NoDup l -> NoDup (map Proto l).
Proof.
  induction 1 as [|p l Hnotin _ IH]; cbn [map]; constructor; [|exact IH].
  intros Hin. apply in_map_iff in Hin. destruct Hin as (q & [= ->] & Hq). exact (Hnotin Hq).
Qed.

Lemma init_keys_listed :
  NoDup SupportedProtocolsArray ->
  Obj.keys init_abis = (map Proto SupportedProtocolsArray ++ [ERROR])%list /\
  Obj.keys init_addresses = (map Proto SupportedProtocolsArray ++ [ERROR])%list.
Proof.
  intros Hnd. unfold init_abis, init_addresses.
  assert (Hno : ~ In ERROR (map Proto SupportedProtocolsArray)).
  { intros Hin. apply in_map_iff in Hin. destruct Hin as (q & Hq & _). discriminate. }
  split; (rewrite keys_set_new;
          [ rewrite keys_fold_set; [reflexivity | now apply NoDup_map_Proto | simpl; tauto]
          | rewrite in_keys_fold_set; simpl; tauto ]).
Qed.

Lemma init_keys_member (key : Bucket) :
  (In key (Obj.keys init_abis)
   <-> key = ERROR \/ exists p, key = Proto p /\ In p SupportedProtocolsArray) /\
  (In key (Obj.keys init_addresses)
   <-> key = ERROR \/ exists p, key = Proto p /\ In p SupportedProtocolsArray).
Proof.
  unfold init_abis, init_addresses.
  split; rewrite in_keys_set, in_keys_fold_set, in_map_iff; simpl;
    (split; [intros [H|[[]|(p & Hp & Hin)]]; [now left | right; eauto]
            | intros [H|(p & Hp & Hin)]; [now left | right; right; eauto]]).
Qed.

Lemma fold_result_keys_eq (key : Bucket) (val : IWriterReturn) (w : World) :
  Obj.keys (abis (fst (fold_result key val w))) = Obj.keys (abis w) /\
  Obj.keys (addresses (fst (fold_result key val w))) = Obj.keys (addresses w).
Proof.
  unfold fold_result.
  pose proof (push_abis_keys key (ABIs val) w) as Kb.
  destruct (push_abis_frame key (ABIs val) w) as (_ & Ea & _ & _).
  destruct (push_abis key (ABIs val) w) as [w1 [e|]]; cbn [fst] in *.
  - now rewrite Kb, Ea.
  - destruct (push_addresses_frame key (Addresses val) w1) as (_ & Eb & _ & _).
    now rewrite Eb, Kb, (push_addresses_keys key (Addresses val) w1), Ea.
Qed.

Lemma task_step_keys_eq (solver dir : string) (net : NetChoice) (t : Task) (w : World) :
  Obj.keys (abis (fst (task_step solver dir net t w))) = Obj.keys (abis w) /\
  Obj.keys (addresses (fst (task_step solver dir net t w))) = Obj.keys (addresses w).
Proof.
  destruct t as [key [g c|g c|[e|val]]|r]; cbn [task_step]; auto.
  - destruct (resume_frame dir solver net (AwaitDirs g c) w) as (Ha & Hb & _).
    destruct (resume dir solver net (AwaitDirs g c) w) as [w1 inv1]. cbn [fst] in *.
    now rewrite Ha, Hb.
  - destruct (resume_frame dir solver net (AwaitWriter g c) w) as (Ha & Hb & _).
    destruct (resume dir solver net (AwaitWriter g c) w) as [w1 inv1]. cbn [fst] in *.
    now rewrite Ha, Hb.
  - pose proof (fold_result_keys_eq key val w) as H1.
    destruct (fold_result key val w) as [w1 [e|]]; exact H1.
Qed.

Lemma reachable_keys_kept (w : World) : reachable w -> keys_kept w.
Proof.
  induction 1 as [d|w dir cis solver net schedule _ IH].
  - split; reflexivity.
  - apply (main_keeps solver dir net keys_kept (fun _ _ => True)); [| | | |exact IH].
    + intros ci w' [Hb Ha]. split; [|exact I].
      destruct (start_frame solver dir net ci w') as (_ & Ea & Eb & _).
      unfold keys_kept. now rewrite Ea, Eb.
    + intros ci t w' [Hb Ha] _. split; [|exact I].
      destruct (task_step_keys_eq solver dir net t w') as [Eb Ea].
      unfold keys_kept. now rewrite Ea, Eb.
    + intros path w' [Hb Ha]. destruct (call_makeDir_frame path w') as (_ & Ea & Eb & _).
      unfold keys_kept. now rewrite Ea, Eb.
    + intros path contents w' [Hb Ha].
      destruct (call_makeFile_frame path contents w') as (_ & Ea & Eb & _).
      unfold keys_kept. now rewrite Ea, Eb.
Qed.
End KeysKept.

(** X7: no run adds, removes or reorders a key of [#abis] or [#addresses]:
    in every reachable world both tables list the keys the field
    initialisers gave them.  When [SupportedProtocolsArray] has no repeated
    element these are its protocols, in its order, followed by ERROR; this is
    the order in which the two registry files list the buckets. *)
Theorem tables_keep_their_keys {host : Host} (w : World) :
  reachable w ->
  Obj.keys (abis w) = Obj.keys init_abis /\
  Obj.keys (addresses w) = Obj.keys init_addresses /\
  (NoDup SupportedProtocolsArray ->
   Obj.keys (abis w) = (map Proto SupportedProtocolsArray ++ [ERROR])%list /\
   Obj.keys (addresses w) = (map Proto SupportedProtocolsArray ++ [ERROR])%list).
Proof.
  intros Hw. destruct (reachable_keys_kept w Hw) as [Hb Ha].
  split; [exact Hb|]. split; [exact Ha|].
  intros Hnd. destruct (init_keys_listed Hnd) as [Ib Ia]. now rewrite Hb, Ha.
Qed.

Lemma tables_keep_their_keys_witness :
  reachable (fst (@main okHost "." ["bancor"; "dydx"] "0.8.0" all (round_robin 2)
                        (@instance okHost tt))) /\
  NoDup (@SupportedProtocolsArray okHost) /\
  Obj.keys (abis (fst (@main okHost "." ["bancor"; "dydx"] "0.8.0" all (round_robin 2)
                             (@instance okHost tt))))
  = [Proto BANCOR; Proto DYDX; Proto KYBER; Proto ONEINCH; Proto UNISWAP; ERROR].
Proof.
  assert (Hw : reachable (fst (@main okHost "." ["bancor"; "dydx"] "0.8.0" all
                                     (round_robin 2) (@instance okHost tt))))
    by (apply reach_main, reach_instance).
  assert (Hnd : NoDup (@SupportedProtocolsArray okHost)).
  { cbn. repeat constructor; simpl; intuition discriminate. }
  destruct (@tables_keep_their_keys okHost _ Hw) as (_ & _ & Hlisted).
  split; [exact Hw|]. split; [exact Hnd|]. exact (proj1 (Hlisted Hnd)).
Defined.

(** ** When the callback of [.then] throws *)

Section MissingKeys.
Context {host : Host}.
Variables (solver dir : string) (net : NetChoice).

Lemma every_key_present (w : World) (key : Bucket) :
  every_key w ->
  (exists arr, Obj.get Bucket_eq_dec key (abis w) = Some arr) /\
  (exists nets, Obj.get Bucket_eq_dec key (addresses w) = Some nets).
Proof.
  intros H. destruct (H key) as [Hb Ha].
  split; now apply get_of_key.
Qed.

Lemma start_keeps_sources (ci : IContractImport) (w : World) :
  every_key w ->
  every_key (fst (start solver dir net ci w)) /\
  rejection_source dir solver net ci (snd (start solver dir net ci w)).
Proof.
  intros HP. split.
  - destruct (start_frame solver dir net ci w) as (_ & Ha & Hb & _).
    unfold every_key. now rewrite Ha, Hb.
  - unfold start.
    destruct (route ci) as [[]|] eqn:Hr; cbn [protocols];
      unfold suspending, noop, unsupported; try (destruct (negb _));
      cbn [fst snd rejection_source flag]; rewrite ?Hr; auto.
Qed.

Lemma step_keeps_sources (ci : IContractImport) (t : Task) (w : World) :
  every_key w -> rejection_source dir solver net ci t ->
  every_key (fst (task_step solver dir net t w)) /\
  rejection_source dir solver net ci (snd (task_step solver dir net t w)).
Proof.
  intros HP HR. split.
  - destruct (task_step_keys_eq solver dir net t w) as [Eb Ea].
    unfold every_key. now rewrite Eb, Ea.
  - destruct t as [key [g c|g c|[e|val]]|r]; cbn [task_step rejection_source] in *.
    + destruct HR as (Hk & Hc & Hg). cbn [resume]. subst c.
      destruct (makeDirs (generatorDirs g dir) w) as [w1 [e|]] eqn:Hmk;
        cbn [snd rejection_source]; [|auto].
      destruct (makeDirs_rejection_of_a_call _ _ e (f_equal snd Hmk)) as (path & d & Hp & Hd).
      exists g. split; [congruence|]. left. eauto.
    + destruct HR as (Hk & Hc & Hg). cbn [resume]. subst c.
      destruct (writer g dir solver net ci (disk w)) as [d [e|val]] eqn:Hw;
        cbn [snd rejection_source]; [|exact I].
      exists g. split; [congruence|]. right. exists (disk w). now rewrite Hw.
    + exact HR.
    + destruct (every_key_present w key HP) as [[arr Hb] [nets Ha]].
      destruct (fold_result_exact key val w arr nets Hb Ha) as (Hnone & _).
      destruct (fold_result key val w) as [w1 r]. cbn [snd] in *. subst r. exact I.
    + exact HR.
Qed.
End MissingKeys.

(** X8: when [SupportedProtocolsArray] lists every protocol, the callback of
    [.then] never throws in a run on the singleton: an element of the batch
    is rejected only with an error that [makeDir] gave for a directory of
    its generator or that its generator's writer rejected with.  Imports
    routed to KYBER, ONEINCH, UNISWAP or ERROR are therefore never
    rejected. *)
Theorem elements_reject_with_collaborator_errors {host : Host}
        (solver : string) (cis : list IContractImport) (dir : string) (net : NetChoice)
        (schedule : list nat) (w : World) (i : nat) (e : JsError) :
  (forall p, In p SupportedProtocolsArray) ->
  reachable w ->
  nth_error (tasks (snd (work solver cis dir net schedule (fst (makeBaseDirs dir w))))) i
  = Some (Settled (inl e)) ->
  exists ci, nth_error cis i = Some ci /\ collaborator_error dir solver net ci e.
Proof.
  intros Hall Hw Hi.
  assert (HP : every_key (fst (makeBaseDirs dir w))).
  { destruct (makeDirs_frame (baseDirs dir) w) as (_ & Ha & Hb & _).
    change (makeDirs (baseDirs dir) w) with (makeBaseDirs dir w) in *.
    destruct (reachable_keys_kept w Hw) as [Kb Ka].
    intros key. rewrite Ha, Hb, Kb, Ka.
    destruct (init_keys_member key) as [Mb Ma]. rewrite Mb, Ma.
    destruct key as [p|]; [|tauto]. split; right; exists p; auto. }
  destruct (work_keeps solver dir net every_key (rejection_source dir solver net)
              (start_keeps_sources solver dir net) (step_keeps_sources solver dir net)
              cis schedule _ HP) as [_ HF].
  destruct (Forall2_nth_error _ _ _ i _ HF Hi) as (ci & Hci & HR).
  exists ci. split; [exact Hci | exact HR].
Qed.

Lemma elements_reject_with_collaborator_errors_witness :
  (forall p, In p (@SupportedProtocolsArray failingHost)) /\
  reachable (@instance failingHost tt) /\
  nth_error (tasks (snd (@work failingHost "0.8.0" ["kyber"; "dydx"] "." all (round_robin 2)
                               (fst (@makeBaseDirs failingHost "." (@instance failingHost tt))))))
            1
  = Some (Settled (inl (Failure "dydx writer"))) /\
  exists ci, nth_error ["kyber"; "dydx"] 1 = Some ci /\
             @collaborator_error failingHost "." "0.8.0" all ci (Failure "dydx writer").
Proof.
  assert (Hall : forall p, In p (@SupportedProtocolsArray failingHost))
    by (intros []; cbn; tauto).
  split; [exact Hall|]. split; [apply reach_instance|]. split; [reflexivity|].
  exact (@elements_reject_with_collaborator_errors failingHost "0.8.0" ["kyber"; "dydx"] "."
           all (round_robin 2) (@instance failingHost tt) 1 (Failure "dydx writer")
           Hall (@reach_instance failingHost tt) eq_refl).
Defined.

(** X9: a protocol that [SupportedProtocolsArray] leaves out has no array in
    [#abis]: in a run on the singleton the callback of [.then] for an import
    of that protocol throws a [TypeError] before it pushes anything, whatever
    the generator returned, so the element is rejected and the world is as it
    was. *)
Theorem unlisted_protocol_rejects {host : Host}
        (solver dir : string) (net : NetChoice) (p : SupportedProtocol)
        (val : IWriterReturn) (w : World) :
  ~ In p SupportedProtocolsArray ->
  reachable w ->
  exists msg,
    task_step solver dir net (Running (Proto p) (Returned (inr val))) w
    = (w, Settled (inl (TypeError msg))).
Proof.
  intros Hnot Hw. destruct (reachable_keys_kept w Hw) as [Kb _].
  assert (Hnone : Obj.get Bucket_eq_dec (Proto p) (abis w) = None).
  { apply get_without_key. rewrite Kb.
    destruct (init_keys_member (Proto p)) as [Mb _]. rewrite Mb.
    intros [H|(q & [= ->] & Hq)]; [discriminate | exact (Hnot Hq)]. }
  cbn [task_step]. unfold fold_result, push_abis. rewrite Hnone. eauto.
Qed.

Lemma unlisted_protocol_rejects_witness :
  ~ In KYBER (@SupportedProtocolsArray partialHost) /\
  reachable (@instance partialHost tt) /\
  Promise_all (snd (@work partialHost "0.8.0" ["kyber"] "." all (round_robin 1)
                          (@instance partialHost tt)))
  = Rejected (TypeError "Cannot read properties of undefined (reading 'push')") /\
  exists msg,
    @task_step partialHost "0.8.0" "." all (Running (Proto KYBER) (Returned (inr emptyReturn)))
               (@instance partialHost tt)
    = (@instance partialHost tt, Settled (inl (TypeError msg))).
Proof.
  assert (Hnot : ~ In KYBER (@SupportedProtocolsArray partialHost))
    by (cbn; intuition discriminate).
  split; [exact Hnot|]. split; [apply reach_instance|]. split; [reflexivity|].
  exact (@unlisted_protocol_rejects partialHost "0.8.0" "." all KYBER emptyReturn
           (@instance partialHost tt) Hnot (@reach_instance partialHost tt)).
Defined.

(** ** What is logged (line 256) *)

Section Logging.
Context {host : Host}.
Variables (solver dir : string) (net : NetChoice).

Lemma errors_logged_app (tr1 tr2 : list Event) :
  errors_logged (tr1 ++ tr2) = (errors_logged tr1 ++ errors_logged tr2)%list.
Proof. unfold errors_logged. apply flat_map_app. Qed.

Lemma start_logs (ci : IContractImport) (w : World) :
  errors_logged (trace (fst (start solver dir net ci w)))
  = (errors_logged (trace w) ++ unsupported_ids [ci])%list.
Proof.
  unfold start, unsupported_ids. cbn [filter].
  destruct (route ci) as [[]|]; cbn [protocols]; unfold suspending, noop, unsupported;
    try (destruct (negb _)); cbn [fst emit trace];
    try (destruct (Bucket_eq_dec _ ERROR) as [Heq|_]; [discriminate Heq|]);
    cbn [map]; rewrite ?app_nil_r; try reflexivity.
  destruct (Bucket_eq_dec ERROR ERROR) as [_|Hne]; [|now elim Hne].
  now rewrite errors_logged_app.
Qed.

Lemma start_all_logs (cis : list IContractImport) (w : World) :
  errors_logged (trace (fst (start_all solver dir net cis w)))
  = (errors_logged (trace w) ++ unsupported_ids cis)%list.
Proof.
  revert w. induction cis as [|ci rest IH]; intros w; cbn [start_all].
  - cbn. now rewrite app_nil_r.
  - pose proof (start_logs ci w) as H1.
    destruct (start solver dir net ci w) as [w1 t]. cbn [fst] in H1.
    pose proof (IH w1) as H2.
    destruct (start_all solver dir net rest w1) as [w2 ts]. cbn [fst] in *.
    rewrite H2, H1, <- app_assoc. f_equal.
    unfold unsupported_ids. cbn [filter].
    destruct (Bucket_eq_dec (route ci) ERROR); reflexivity.
Qed.

Lemma task_step_logs (t : Task) (w : World) :
  errors_logged (trace (fst (task_step solver dir net t w))) = errors_logged (trace w).
Proof.
  destruct t as [key [g c|g c|[e|val]]|r]; cbn [task_step]; try reflexivity.
  - destruct (resume_frame dir solver net (AwaitDirs g c) w) as (_ & _ & _ & Hl).
    destruct (resume dir solver net (AwaitDirs g c) w) as [w1 inv1]. exact Hl.
  - destruct (resume_frame dir solver net (AwaitWriter g c) w) as (_ & _ & _ & Hl).
    destruct (resume dir solver net (AwaitWriter g c) w) as [w1 inv1]. exact Hl.
  - destruct (fold_result_frame key val w) as (_ & _ & Ht).
    destruct (fold_result key val w) as [w1 [e|]]; cbn [fst] in *; now rewrite Ht.
Qed.

Lemma run_schedule_logs (schedule : list nat) (st : World * Pool) :
  errors_logged (trace (fst (run_schedule solver dir net schedule st)))
  = errors_logged (trace (fst st)).
Proof.
  unfold run_schedule. revert st.
  induction schedule as [|i rest IH]; intros st; cbn [fold_left]; [reflexivity|].
  rewrite IH. destruct st as [w pool]. unfold pool_step.
  destruct (nth_error (tasks pool) i) as [t|]; [|reflexivity].
  pose proof (task_step_logs t w) as H.
  destruct (task_step solver dir net t w) as [w1 t1]. exact H.
Qed.
End Logging.

(** X10: [#work] reports each import routed to ERROR exactly once, with the
    identifier as the import spells it, in the order of the imports and
    under every schedule (the report is made when the generator is started,
    before any element is resumed); nothing else is reported. *)
Theorem work_reports_unsupported_imports {host : Host}
        (solver : string) (cis : list IContractImport) (dir : string) (net : NetChoice)
        (schedule : list nat) (w : World) :
  errors_logged (trace (fst (work solver cis dir net schedule w)))
  = (errors_logged (trace w) ++ unsupported_ids cis)%list.
Proof.
  unfold work. pose proof (start_all_logs solver dir net cis w) as H.
  destruct (start_all solver dir net cis w) as [w1 ts]. cbn [fst] in H.
  now rewrite run_schedule_logs.
Qed.

(** ** The flags (lines 34-43, 201-206, 218-224) *)

Section Flags.
Context {host : Host}.
Variables (solver dir : string) (net : NetChoice).

Lemma init_madeDirs_unset (l : list SupportedProtocol) (o : Obj.t SupportedProtocol bool)
                          (p : SupportedProtocol) :
  Obj.get SupportedProtocol_eq_dec p o <> Some true ->
  Obj.get SupportedProtocol_eq_dec p
    (fold_left (fun obj q => Obj.set SupportedProtocol_eq_dec q false obj) l o) <> Some true.
Proof.
  revert o. induction l as [|q l IH]; intros o H; cbn [fold_left]; [exact H|].
  apply IH. destruct (SupportedProtocol_eq_dec q p) as [->|Hne].
  - rewrite get_set_same. discriminate.
  - now rewrite (get_set_other _ _ SupportedProtocol_eq_dec q p _ _ Hne).
Qed.

Lemma instance_flags_unset (d : Disk) (p : SupportedProtocol) :
  madeDirs_flag p (instance d) = false.
Proof.
  unfold madeDirs_flag. cbn [instance madeDirs]. unfold init_madeDirs.
  assert (H : Obj.get SupportedProtocol_eq_dec p
                (fold_left (fun obj q => Obj.set SupportedProtocol_eq_dec q false obj)
                           SupportedProtocolsArray []) <> Some true)
    by (apply init_madeDirs_unset; discriminate).
  destruct (Obj.get SupportedProtocol_eq_dec p
              (fold_left (fun obj q => Obj.set SupportedProtocol_eq_dec q false obj)
                         SupportedProtocolsArray [])) as [[|]|]; try reflexivity.
  now elim H.
Qed.

Lemma flags_sound_same (w w' : World) (more : list string) :
  madeDirs w' = madeDirs w ->
  dirs_made (trace w') = (dirs_made (trace w) ++ more)%list ->
  flags_sound w -> flags_sound w'.
Proof.
  intros Hm Hd [H1 H2]. unfold flags_sound, madeDirs_flag in *. rewrite Hm, Hd.
  split; [exact H1|]. intros g Hg. destruct (H2 g Hg) as [dir0 Hincl].
  exists dir0. apply incl_appl, Hincl.
Qed.

Lemma flag_injective (g g' : Suspending) : flag g = flag g' -> g = g'.
Proof. destruct g, g'; now try discriminate. Qed.

Lemma task_step_flags (t : Task) (w : World) :
  flags_sound w -> flags_sound (fst (task_step solver dir net t w)).
Proof.
  intros HP. destruct t as [key [g c|g c|[e|val]]|r]; cbn [task_step]; try exact HP.
  - cbn [resume].
    destruct (makeDirs_frame (generatorDirs g dir) w) as (Hm & _ & _ & Ht).
    destruct (makeDirs (generatorDirs g dir) w) as [w1 [e|]]; cbn [fst] in *.
    + apply (flags_sound_same w w1 (generatorDirs g dir)); auto.
      now rewrite Ht, dirs_made_app.
    + destruct HP as [H1 H2]. split.
      * intros p Hp. unfold madeDirs_flag in *. cbn [madeDirs with_madeDirs].
        rewrite get_set_other, Hm; [now apply H1|].
        intros <-. destruct g; discriminate.
      * intros g' Hg'. unfold madeDirs_flag in *. cbn [madeDirs with_madeDirs trace] in *.
        rewrite Ht, dirs_made_app.
        destruct (SupportedProtocol_eq_dec (flag g) (flag g')) as [Heq|Hne].
        -- apply flag_injective in Heq. subst g'. exists dir. apply incl_appr, incl_refl.
        -- rewrite (get_set_other _ _ SupportedProtocol_eq_dec _ _ _ _ Hne), Hm in Hg'.
           destruct (H2 g' Hg') as [dir0 Hincl]. exists dir0. apply incl_appl, Hincl.
  - cbn [resume]. destruct (writer g dir solver net c (disk w)) as [d r].
    apply (flags_sound_same w _ []); auto. now rewrite app_nil_r.
  - destruct (fold_result_frame key val w) as (Hm & _ & Ht).
    destruct (fold_result key val w) as [w1 [e|]]; cbn [fst] in *;
      apply (flags_sound_same w w1 []); auto; now rewrite Ht, app_nil_r.
Qed.
End Flags.

Lemma reachable_flags_sound {host : Host} (w : World) : reachable w -> flags_sound w.
Proof.
  induction 1 as [d|w dir cis solver net schedule _ IH].
  - split; [intros p _; apply instance_flags_unset|].
    intros g Hg. rewrite instance_flags_unset in Hg. discriminate.
  - apply (main_keeps solver dir net flags_sound (fun _ _ => True)); [| | | |exact IH].
    + intros ci w' H. split; [|exact I].
      destruct (start_frame solver dir net ci w') as (Hm & _ & _ & _ & Hd).
      apply (flags_sound_same w' _ []); auto. now rewrite app_nil_r.
    + intros ci t w' H _. split; [now apply task_step_flags | exact I].
    + intros path w' H. destruct (call_makeDir_frame path w') as (Hm & _ & _ & Ht).
      apply (flags_sound_same w' _ [path]); auto. rewrite Ht.
      change [EvMakeDir path] with (map EvMakeDir [path]). apply dirs_made_app.
    + intros path contents w' H.
      destruct (call_makeFile_frame path contents w') as (Hm & _ & _ & Ht).
      apply (flags_sound_same w' _ []); auto. rewrite Ht, dirs_made_events_app.
      reflexivity.
Qed.

(** X11: in every reachable world the flags of KYBER, ONEINCH and UNISWAP are
    unset (only [#bancor] and [#dydx] set a flag), and a flag that is set
    belongs to a generator all of whose directories were asked of [makeDir]
    earlier, for the directory of some run. *)
Theorem flags_tell_what_was_provisioned {host : Host} (w : World) :
  reachable w ->
  (forall p, provisioning p = None -> madeDirs_flag p w = false) /\
  (forall g, madeDirs_flag (flag g) w = true ->
             exists dir, incl (generatorDirs g dir) (dirs_made (trace w))).
Proof. exact (reachable_flags_sound w). Qed.

Lemma flags_tell_what_was_provisioned_witness :
  reachable (fst (@main okHost "." ["dydx"; "kyber"] "0.8.0" all (round_robin 2)
                        (@instance okHost tt))) /\
  madeDirs_flag KYBER (fst (@main okHost "." ["dydx"; "kyber"] "0.8.0" all (round_robin 2)
                                  (@instance okHost tt))) = false /\
  madeDirs_flag DYDX (fst (@main okHost "." ["dydx"; "kyber"] "0.8.0" all (round_robin 2)
                                 (@instance okHost tt))) = true /\
  exists dir,
    incl (@generatorDirs okHost viaDyDx dir)
         (dirs_made (trace (fst (@main okHost "." ["dydx"; "kyber"] "0.8.0" all
                                       (round_robin 2) (@instance okHost tt))))).
Proof.
  assert (Hw : reachable (fst (@main okHost "." ["dydx"; "kyber"] "0.8.0" all
                                     (round_robin 2) (@instance okHost tt))))
    by (apply reach_main, reach_instance).
  destruct (@flags_tell_what_was_provisioned okHost _ Hw) as [H1 H2].
  split; [exact Hw|]. split; [exact (H1 KYBER eq_refl)|]. split; [reflexivity|].
  exact (H2 viaDyDx eq_refl).
Defined.

(** ** A batch whose flags are set *)

Section FlagsSet.
Context {host : Host}.
Variables (solver dir : string) (net : NetChoice).

Lemma start_all_awaits (cis : list IContractImport) (w : World) :
  (forall ci g, In ci cis -> route ci = Proto (flag g) -> madeDirs_flag (flag g) w = true) ->
  Forall (fun t => awaits_dirs t = false) (snd (start_all solver dir net cis w)) /\
  dirs_made (trace (fst (start_all solver dir net cis w))) = dirs_made (trace w).
Proof.
  revert w. induction cis as [|ci rest IH]; intros w Hset; cbn [start_all]; [auto|].
  destruct (start_frame solver dir net ci w) as (Hm & _ & _ & _ & Hd).
  assert (Ht : awaits_dirs (snd (start solver dir net ci w)) = false).
  { unfold start.
    destruct (route ci) as [[]|] eqn:Hr; cbn [protocols]; unfold suspending, noop, unsupported;
      try reflexivity.
    - rewrite (Hset ci viaBancor (or_introl eq_refl) Hr). reflexivity.
    - rewrite (Hset ci viaDyDx (or_introl eq_refl) Hr). reflexivity. }
  destruct (start solver dir net ci w) as [w1 t]. cbn [fst snd] in *.
  destruct (IH w1) as [HF Hd1].
  { intros c g Hc Hg. unfold madeDirs_flag. rewrite Hm. apply (Hset c g); auto. now right. }
  destruct (start_all solver dir net rest w1) as [w2 ts]. cbn [fst snd] in *.
  split; [constructor; assumption | now rewrite Hd1].
Qed.

Lemma task_step_never_awaits_dirs (t : Task) (w : World) :
  awaits_dirs t = false -> awaits_dirs (snd (task_step solver dir net t w)) = false.
Proof.
  destruct t as [key [g c|g c|[e|val]]|r]; cbn [task_step awaits_dirs]; try discriminate;
    intros _; try reflexivity.
  - cbn [resume]. now destruct (writer g dir solver net c (disk w)).
  - now destruct (fold_result key val w) as [w1 [e|]].
Qed.

Lemma run_schedule_awaits (schedule : list nat) (w : World) (pool : Pool) :
  Forall (fun t => awaits_dirs t = false) (tasks pool) ->
  dirs_made (trace (fst (run_schedule solver dir net schedule (w, pool))))
  = dirs_made (trace w).
Proof.
  unfold run_schedule. revert w pool.
  induction schedule as [|i rest IH]; intros w pool HF; cbn [fold_left]; [reflexivity|].
  unfold pool_step at 2.
  destruct (nth_error (tasks pool) i) as [t|] eqn:Hi; [|now apply IH].
  assert (Ht : awaits_dirs t = false).
  { rewrite Forall_forall in HF. apply HF. exact (nth_error_In _ _ Hi). }
  destruct (task_step_dirs solver dir net t w) as (more & Hd & _ & Hnone).
  pose proof (task_step_never_awaits_dirs t w Ht) as Ht1.
  destruct (task_step solver dir net t w) as [w1 t1]. cbn [fst snd] in *.
  rewrite IH; cbn [tasks].
  - now rewrite Hd, (Hnone Ht), app_nil_r.
  - apply Forall_forall. intros x Hx. apply in_set_nth in Hx.
    destruct Hx as [->|Hx]; [exact Ht1|]. rewrite Forall_forall in HF. now apply HF.
Qed.
End FlagsSet.

(** X12: a batch started in a world where the flag of every generator it
    routes to is set asks [makeDir] for no directory, under every schedule:
    a later run does not provision again what an earlier run of the
    singleton provisioned. *)
Theorem work_with_flags_set_makes_no_directory {host : Host}
        (solver : string) (cis : list IContractImport) (dir : string) (net : NetChoice)
        (schedule : list nat) (w : World) :
  (forall ci g, In ci cis -> route ci = Proto (flag g) -> madeDirs_flag (flag g) w = true) ->
  dirs_made (trace (fst (work solver cis dir net schedule w))) = dirs_made (trace w).
Proof.
  intros Hset. unfold work.
  destruct (start_all_awaits solver dir net cis w Hset) as [HF Hd].
  destruct (start_all solver dir net cis w) as [w1 ts]. cbn [fst snd] in *.
  now rewrite run_schedule_awaits.
Qed.

Lemma work_with_flags_set_makes_no_directory_witness :
  (forall ci g,
      In ci ["bancor"; "kyber"] -> @route okHost ci = Proto (flag g) ->
      madeDirs_flag (flag g)
        (fst (@main okHost "." ["bancor"] "0.8.0" all (round_robin 1) (@instance okHost tt)))
      = true) /\
  dirs_made (trace (fst (@work okHost "0.8.0" ["bancor"; "kyber"] "." all (round_robin 2)
                           (fst (@main okHost "." ["bancor"] "0.8.0" all (round_robin 1)
                                       (@instance okHost tt))))))
  = dirs_made (trace (fst (@main okHost "." ["bancor"] "0.8.0" all (round_robin 1)
                                 (@instance okHost tt)))).
Proof.
  assert (Hset : forall ci g,
             In ci ["bancor"; "kyber"] -> @route okHost ci = Proto (flag g) ->
             madeDirs_flag (flag g)
               (fst (@main okHost "." ["bancor"] "0.8.0" all (round_robin 1)
                           (@instance okHost tt))) = true).
  { intros ci g [<-|[<-|[]]] Hr; destruct g; vm_compute in Hr; try discriminate Hr;
      reflexivity. }
  split; [exact Hset|].
  exact (@work_with_flags_set_makes_no_directory okHost "0.8.0" ["bancor"; "kyber"] "." all
           (round_robin 2) _ Hset).
Defined.

(** ** The order of the dependency list (line 102) *)

Lemma filter_filter_implied {A : Type} (f g : A -> bool) (l : list A) :
  (forall x, f x = true -> g x = true) -> filter f (filter g l) = filter f l.
Proof.
  intros H. induction l as [|a l IH]; cbn [filter]; [reflexivity|].
  destruct (g a) eqn:Hg; cbn [filter].
  - now rewrite IH.
  - rewrite IH. destruct (f a) eqn:Hf; [|reflexivity].
    rewrite (H a Hf) in Hg. discriminate.
Qed.

Lemma filter_filter_and {A : Type} (f g : A -> bool) (l : list A) :
  filter f (filter g l) = filter (fun x => g x && f x) l.
Proof.
  induction l as [|a l IH]; cbn [filter]; [reflexivity|].
  destruct (g a); cbn [filter andb]; [destruct (f a)|]; now rewrite IH.
Qed.

Lemma fold_Set_add_from (l s : list string) :
  fold_left Set_add l s
  = (s ++ filter (fun y => if in_dec string_dec y s then false else true)
                 (fold_left Set_add l []))%list.
Proof.
  revert s. induction l as [|a l IH]; intros s; cbn [fold_left].
  - cbn. now rewrite app_nil_r.
  - assert (H1 : fold_left Set_add l (Set_add [] a)
                 = a :: filter (fun y => if in_dec string_dec y [a] then false else true)
                               (fold_left Set_add l [])) by exact (IH [a]).
    rewrite H1. cbn [filter].
    assert (Hadd : Set_add s a = if in_dec string_dec a s then s else (s ++ [a])%list)
      by reflexivity.
    rewrite Hadd. clear Hadd H1.
    destruct (in_dec string_dec a s) as [Hin|Hnot].
    + rewrite (IH s). f_equal. symmetry. apply filter_filter_implied.
      intros x Hx. destruct (in_dec string_dec x s) as [|Hxs]; [discriminate|].
      destruct (in_dec string_dec x [a]) as [[->|[]]|]; [contradiction | reflexivity].
    + rewrite (IH (s ++ [a])%list), <- app_assoc. cbn [app]. f_equal. f_equal.
      rewrite filter_filter_and. apply filter_ext. intros x.
      destruct (in_dec string_dec x (s ++ [a])) as [Hx|Hx];
        destruct (in_dec string_dec x [a]) as [Ha|Ha];
        destruct (in_dec string_dec x s) as [Hs|Hs]; cbn;
        first [ reflexivity
              | apply in_app_or in Hx; tauto
              | elim Hx; apply in_or_app; tauto ].
Qed.

Lemma new_Set_cons (x : string) (l : list string) :
  new_Set (x :: l) = x :: filter (fun y => negb (String.eqb y x)) (new_Set l).
Proof.
  unfold new_Set. cbn [fold_left].
  rewrite (fold_Set_add_from l (Set_add [] x)).
  change (Set_add [] x) with [x]. cbn [app]. f_equal. apply filter_ext. intros y.
  destruct (in_dec string_dec y [x]) as [[->|[]]|Hne].
  - now rewrite String.eqb_refl.
  - destruct (String.eqb_spec y x) as [->|_]; [|reflexivity]. elim Hne. now left.
Qed.

Lemma new_Set_first_occurrences (l : list string) : new_Set l = first_occurrences l.
Proof.
  induction l as [|x l IH]; [reflexivity|].
  now rewrite new_Set_cons, IH.
Qed.

Lemma filter_all {A : Type} (l : list A) : filter (fun _ => true) l = l.
Proof. induction l as [|a l IH]; cbn; [reflexivity | now rewrite IH]. Qed.

Lemma first_occurrences_NoDup (l : list string) : NoDup l -> first_occurrences l = l.
Proof.
  induction 1 as [|x l Hnotin _ IH]; cbn [first_occurrences]; [reflexivity|].
  rewrite IH. f_equal. rewrite <- (filter_all l) at 2.
  apply filter_ext_in. intros y Hy.
  destruct (String.eqb_spec y x) as [->|_]; [contradiction | reflexivity].
Qed.

(** X13: the array [main] resolves to lists the strings of the array [#work]
    resolved to in the order of their first occurrence, that is in the order
    of the first import that returned each; when the strings are pairwise
    distinct it is that array itself. *)
Theorem main_lists_packs_in_first_occurrence_order {host : Host}
        (dir : string) (cis : list IContractImport) (solver : string) (net : NetChoice)
        (schedule : list nat) (w : World) (l : list string) :
  snd (main dir cis solver net schedule w) = Resolved l ->
  exists val,
    Promise_all (snd (work solver cis dir net schedule (fst (makeBaseDirs dir w))))
    = Resolved val /\
    l = first_occurrences val /\
    (NoDup val -> l = val).
Proof.
  intros Hl. destruct (main_resolved_inv solver dir net cis schedule w l Hl) as (val & Hv & ->).
  exists val. split; [exact Hv|]. rewrite new_Set_first_occurrences.
  split; [reflexivity | apply first_occurrences_NoDup].
Qed.

Lemma main_lists_packs_in_first_occurrence_order_witness :
  snd (@main okHost "." ["kyber"; "bancor"; "uniswap"; "Bancor"] "0.8.0" all (round_robin 4)
             (@instance okHost tt))
  = Resolved [EmptyString; "@bancor/contracts-solidity"] /\
  exists val,
    Promise_all (snd (@work okHost "0.8.0" ["kyber"; "bancor"; "uniswap"; "Bancor"] "." all
                            (round_robin 4)
                            (fst (@makeBaseDirs okHost "." (@instance okHost tt)))))
    = Resolved val /\
    [EmptyString; "@bancor/contracts-solidity"] = first_occurrences val.
Proof.
  split; [reflexivity|].
  destruct (@main_lists_packs_in_first_occurrence_order okHost "."
              ["kyber"; "bancor"; "uniswap"; "Bancor"] "0.8.0" all (round_robin 4)
              (@instance okHost tt) [EmptyString; "@bancor/contracts-solidity"] eq_refl)
    as (val & Hv & Hl & _).
  exists val. split; [exact Hv | exact Hl].
Defined.

(** ** The text of [lib/abis.ts] (lines 140-154) *)

Lemma exports_end_with_brace (e : Bucket * list IABIReturn)
                             (rest : list (Bucket * list IABIReturn)) :
  exists t, join (map spec_abi_export (e :: rest)) = t ++ "}".
Proof.
  revert e. induction rest as [|e' rest IH]; intros e.
  - exists (nl ++ "export const " ++ bucket_name (fst e) ++ "_ABI = {"
               ++ join (map spec_abi_line (snd e)) ++ nl).
    cbn [map join fold_right]. unfold spec_abi_export.
    now rewrite append_nil_r, !append_assoc.
  - destruct (IH e') as [t Ht]. exists (spec_abi_export e ++ t).
    change (join (map spec_abi_export (e :: e' :: rest)))
      with (spec_abi_export e ++ join (map spec_abi_export (e' :: rest))).
    now rewrite Ht, append_assoc.
Qed.

Lemma brace_then_exports_end_with_brace (prefix : string)
                                       (rest : list (Bucket * list IABIReturn)) :
  exists t, prefix ++ "}" ++ join (map spec_abi_export rest) = t ++ "}".
Proof.
  destruct rest as [|e rest].
  - exists prefix. cbn [map join fold_right]. reflexivity.
  - destruct (exports_end_with_brace e rest) as [t0 ->].
    exists (prefix ++ "}" ++ t0). now rewrite !append_assoc.
Qed.

(** X14: the text written to [lib/abis.ts] is empty when no bucket other than
    ERROR holds a fragment; otherwise it is the exports of those buckets one
    after the other without the line feed the first one was appended with,
    so that it begins with [export const] and ends with the closing brace of
    the last export. *)
Theorem abis_text_is_the_exports {host : Host} (w : World) :
  abis_text w
  = match filter spec_abi_listed (abis w) with
    | [] => EmptyString
    | e :: rest =>
        "export const " ++ bucket_name (fst e) ++ "_ABI = {"
          ++ join (map spec_abi_line (snd e)) ++ nl ++ "}"
          ++ join (map spec_abi_export rest)
    end.
Proof.
  destruct (registries_agree w) as [-> _].
  destruct (filter spec_abi_listed (abis w)) as [|e rest]; [reflexivity|].
  change (join (map spec_abi_export (e :: rest)))
    with (spec_abi_export e ++ join (map spec_abi_export rest)).
  unfold spec_abi_export at 1. rewrite !append_assoc. unfold trim.
  replace (trimStart (nl ++ "export const " ++ bucket_name (fst e) ++ "_ABI = {"
                         ++ join (map spec_abi_line (snd e)) ++ nl ++ "}"
                         ++ join (map spec_abi_export rest)))
    with ("export const " ++ bucket_name (fst e) ++ "_ABI = {"
            ++ join (map spec_abi_line (snd e)) ++ nl ++ "}"
            ++ join (map spec_abi_export rest)) by reflexivity.
  destruct (brace_then_exports_end_with_brace
              ("export const " ++ bucket_name (fst e) ++ "_ABI = {"
                 ++ join (map spec_abi_line (snd e)) ++ nl) rest) as [t Ht].
  rewrite !append_assoc in Ht. rewrite Ht. apply trimEnd_closing_brace.
Qed.

(** ** Elements that never had a turn *)

Section Hanging.
Context {host : Host}.
Variables (solver dir : string) (net : NetChoice).

Lemma run_schedule_untouched (schedule : list nat) (i : nat) (w : World) (pool : Pool) :
  ~ In i schedule ->
  nth_error (tasks (snd (run_schedule solver dir net schedule (w, pool)))) i
  = nth_error (tasks pool) i.
Proof.
  unfold run_schedule. revert w pool.
  induction schedule as [|j rest IH]; intros w pool Hnot; cbn [fold_left]; [reflexivity|].
  assert (Hj : j <> i) by (intros ->; apply Hnot; now left).
  assert (Hrest : ~ In i rest) by (intros H; apply Hnot; now right).
  unfold pool_step at 2.
  destruct (nth_error (tasks pool) j) as [t|]; [|now apply IH].
  destruct (task_step solver dir net t w) as [w1 t1].
  rewrite IH by exact Hrest. cbn [tasks]. now apply nth_error_set_nth_other.
Qed.

Lemma all_resolved_running (ts : list Task) (i : nat) (key : Bucket) (inv : Invocation) :
  nth_error ts i = Some (Running key inv) -> all_resolved ts = None.
Proof.
  intros Hi. destruct (all_resolved ts) as [vals|] eqn:E; [|reflexivity].
  apply all_resolved_map in E. rewrite E, nth_error_map in Hi.
  destruct (nth_error vals i); discriminate.
Qed.

Lemma start_all_nth (cis : list IContractImport) (w : World) (i : nat) :
  i < length cis ->
  exists key inv, nth_error (snd (start_all solver dir net cis w)) i = Some (Running key inv).
Proof.
  intros Hi. rewrite <- (start_all_length solver dir net cis w) in Hi.
  apply nth_error_Some in Hi.
  destruct (nth_error (snd (start_all solver dir net cis w)) i) as [t|] eqn:E; [|congruence].
  destruct t as [key inv|r]; [eauto|].
  elim (start_all_running solver dir net cis w r). exact (nth_error_In _ _ E).
Qed.
Lemma work_unresolved (cis : list IContractImport) (schedule : list nat) (w : World)
                       (i : nat) (val : list string) :
  i < length cis -> ~ In i schedule ->
  Promise_all (snd (work solver cis dir net schedule w)) <> Resolved val.
Proof.
  intros Hi Hnot Hv. unfold work in Hv.
  destruct (start_all_nth cis w i Hi) as (key & inv & Hstart).
  destruct (start_all solver dir net cis w) as [w1 ts]. cbn [snd] in Hstart.
  pose proof (run_schedule_untouched schedule i w1 {| tasks := ts; rejection := None |} Hnot)
    as Hsame.
  cbn [tasks] in Hsame. rewrite Hstart in Hsame.
  unfold Promise_all in Hv.
  destruct (rejection _); [discriminate|].
  now rewrite (all_resolved_running _ i key inv Hsame) in Hv.
Qed.
End Hanging.

(** X15: [main] does not resolve while an element of the batch has not had a
    turn: under a schedule that never resumes some import the run is pending
    or rejected, whatever the other imports did, and no file is written. *)
Theorem main_waits_for_every_element {host : Host}
        (dir : string) (cis : list IContractImport) (solver : string) (net : NetChoice)
        (schedule : list nat) (w : World) (i : nat) :
  i < length cis ->
  ~ In i schedule ->
  (forall l, snd (main dir cis solver net schedule w) <> Resolved l) /\
  files_written (trace (fst (main dir cis solver net schedule w))) = files_written (trace w).
Proof.
  intros Hi Hnot. unfold main.
  pose proof (makeDirs_files (baseDirs dir) w) as Hf.
  change (makeDirs (baseDirs dir) w) with (makeBaseDirs dir w) in *.
  destruct (makeBaseDirs dir w) as [w1 [e1|]]; cbn [fst snd] in *.
  - split; [discriminate | exact Hf].
  - pose proof (work_files solver dir net cis schedule w1) as Hw.
    pose proof (fun val => work_unresolved solver dir net cis schedule w1 i val Hi Hnot) as Hun.
    destruct (work solver cis dir net schedule w1) as [w2 pool]. cbn [fst snd] in *.
    destruct (Promise_all pool) as [|val|e]; cbn [fst snd].
    + split; [discriminate | now rewrite Hw].
    + elim (Hun val eq_refl).
    + split; [discriminate | now rewrite Hw].
Qed.

Lemma main_waits_for_every_element_witness :
  1 < length ["kyber"; "bancor"] /\
  ~ In 1 [0; 0; 0] /\
  snd (@main okHost "." ["kyber"; "bancor"] "0.8.0" all [0; 0; 0] (@instance okHost tt))
  = Pending /\
  files_written (trace (fst (@main okHost "." ["kyber"; "bancor"] "0.8.0" all [0; 0; 0]
                                   (@instance okHost tt)))) = [].
Proof.
  assert (H1 : 1 < length ["kyber"; "bancor"]) by (simpl; lia).
  assert (H2 : ~ In 1 [0; 0; 0]) by (simpl; intuition discriminate).
  destruct (@main_waits_for_every_element okHost "." ["kyber"; "bancor"] "0.8.0" all
              [0; 0; 0] (@instance okHost tt) 1 H1 H2) as [_ Hfiles].
  split; [exact H1|]. split; [exact H2|]. split; [reflexivity | exact Hfiles].
Defined.
